(** * sloghandler: a slog.Handler printing log-package style lines

    Shallow embedding of [log.go] of bnixon67/sloghandler and the
    properties its specification states about it.

    [log.go] holds two definitions of the package: the current one (with a
    [timeFormat] field and a [sync.RWMutex]) is embedded at top level, the
    earlier one (fixed layout, [sync.Mutex]) in module [Legacy].

    Go values are modelled as follows.
    - [*LogFormatHandler] : an address into a store of handler structs;
      the mutex is a field of the struct, so a mutex is identified by the
      address of the struct that holds it.
    - [[]slog.Attr] : a slice header (backing array, len, cap) over a store
      of backing arrays; [append] writes in place when the capacity allows.
    - [io.Writer] : an address into a store of destinations, whose [Write]
      is an interface method (a type class).
    - a call that does not return (nil dereference, a lock that is never
      released) yields [None]. *)

From Stdlib Require Import ZArith String Ascii DecimalString Lia.
From stdpp Require Import base option list.

Infix "+:+" := String.append (at level 60, right associativity) : string_scope.

Open Scope string_scope.
Open Scope list_scope.

(* ================================================================== *)
(** * Part I: definitions *)
(* ================================================================== *)

(** ** Go library values used by the handler *)

(** [error] values: a plain error, or one built by [fmt.Errorf] with the
    [%w] verb, which keeps the wrapped cause. *)
Inductive error : Type :=
| errorString (s : string)
| wrapError (msg : string) (err : error).

Definition Error (e : error) : string :=
  match e with
  | errorString s => s
  | wrapError msg _ => msg
  end.


(** [fmt.Errorf(prefix + "%w", err)] *)
Definition Errorf_w (prefix : string) (err : error) : error :=
  wrapError (prefix +:+ Error err) err.

(** What [Handle] returns for the error of [Write]:
    [fmt.Errorf("failed to write log: %w", err)] when there is one. *)
Definition wrap_write_error (err : option error) : option error :=
  match err with
  | Some err => Some (Errorf_w "failed to write log: " err)
  | None => None
  end.

(** [context.Context], as far as a caller can vary it. *)
Record Context : Type := mkContext {
  ctx_deadline : option Z;
  ctx_cancelled : bool;
  ctx_values : list (string * string)
}.

Definition Background : Context := mkContext None false [].

(** [slog.Level] is an [int]; the four named levels. *)
Definition slog_Level : Type := Z.
Definition LevelDebug : slog_Level := (-4)%Z.
Definition LevelInfo : slog_Level := 0%Z.
Definition LevelWarn : slog_Level := 4%Z.
Definition LevelError : slog_Level := 8%Z.

(** [strconv]-style decimal rendering. *)
Definition FormatInt (n : Z) : string := NilZero.string_of_int (Z.to_int n).
Definition FormatUint (n : N) : string := NilZero.string_of_uint (N.to_uint n).

(** The [%+d] verb: the sign is always printed. *)
Definition Sprintf_plus_d (n : Z) : string :=
  if (0 <=? n)%Z then "+" +:+ FormatInt n else FormatInt n.

(** [slog.Level.String]. *)
Definition Level_String (l : slog_Level) : string :=
  let str (base : string) (val : Z) : string :=
    if (val =? 0)%Z then base else base +:+ Sprintf_plus_d val in
  if (l <? LevelInfo)%Z then str "DEBUG" (l - LevelDebug)%Z
  else if (l <? LevelWarn)%Z then str "INFO" (l - LevelInfo)%Z
  else if (l <? LevelError)%Z then str "WARN" (l - LevelWarn)%Z
  else str "ERROR" (l - LevelError)%Z.

(** [strings.ToUpper] on ASCII text (level names are ASCII). *)
Definition upper_ascii (c : ascii) : ascii :=
  let n := nat_of_ascii c in
  if (97 <=? n)%nat && (n <=? 122)%nat then ascii_of_nat (n - 32) else c.

Fixpoint ToUpper (s : string) : string :=
  match s with
  | EmptyString => EmptyString
  | String c s' => String (upper_ascii c) (ToUpper s')
  end.

(** ** Mutexes

    A mutex is a value; [Lock] on a held mutex does not return. *)
Record Mutex : Type := mkMutex { locked : bool }.

Record RWMutex : Type := mkRWMutex {
  w : bool;             (* held by a writer *)
  readerCount : nat     (* readers holding it *)
}.

Definition Mutex_zero : Mutex := mkMutex false.
Definition RWMutex_zero : RWMutex := mkRWMutex false 0.

Definition Mutex_Lock (m : Mutex) : option Mutex :=
  if locked m then None else Some (mkMutex true).

Definition Mutex_Unlock (m : Mutex) : option Mutex :=
  if locked m then Some (mkMutex false) else None.

Definition Lock (m : RWMutex) : option RWMutex :=
  if w m then None
  else match readerCount m with
       | O => Some (mkRWMutex true 0)
       | S _ => None
       end.

Definition Unlock (m : RWMutex) : option RWMutex :=
  if w m then Some (mkRWMutex false (readerCount m)) else None.

Definition RLock (m : RWMutex) : option RWMutex :=
  if w m then None else Some (mkRWMutex false (S (readerCount m))).

Definition RUnlock (m : RWMutex) : option RWMutex :=
  match readerCount m with
  | O => None
  | S n => Some (mkRWMutex (w m) n)
  end.

(** ** The parts of Go that the package leaves to its environment *)

(** What the runtime and the standard library decide: how a [time.Time] is
    laid out by [Format], how [fmt] prints a value that is not one of the
    scalar kinds, and how much capacity [append] asks for when it has to
    grow a slice. *)
Class GoRuntime : Type := {
  time_Time : Type;
  Time_Format : time_Time -> string -> string;
  any : Type;
  fmt_any : any -> string;
  growcap : nat -> nat -> nat   (* old capacity, needed length *)
}.

(** [io.Writer]: [Write(p)] returns the number of bytes taken and an
    optional error, and changes the destination. *)
Class Writer (W : Type) : Type :=
  Writer_Write : W -> string -> W * (Z * option error).

Definition newline : string := String (ascii_of_nat 10) EmptyString.

(** [bytes.Buffer.WriteString] on the buffer's contents. *)
Definition WriteString (buf s : string) : string := buf +:+ s.

(** ** slog values *)

Section Slog.
Context `{RT : GoRuntime}.

(** [slog.Value]: the scalar kinds are rendered by [strconv]; every other
    kind goes through [fmt], a nil [any] included. *)
Inductive slog_Value : Type :=
| StringValue (s : string)
| Int64Value (n : Z)
| Uint64Value (n : N)
| BoolValue (b : bool)
| AnyValue (x : option any).

(** [slog.Value.String], which the [%v] verb calls. *)
Definition Value_String (v : slog_Value) : string :=
  match v with
  | StringValue s => s
  | Int64Value n => FormatInt n
  | Uint64Value n => FormatUint n
  | BoolValue b => if b then "true" else "false"
  | AnyValue (Some x) => fmt_any x
  | AnyValue None => "<nil>"
  end.

Record slog_Attr : Type := mkAttr { Key : string; Value : slog_Value }.

(** The zero [slog.Attr], which fills freshly allocated array slots. *)
Definition Attr_zero : slog_Attr := mkAttr "" (AnyValue None).

(** [fmt.Sprintf(" %s=%v", a.Key, a.Value)] *)
Definition Sprintf_attr (key : string) (v : slog_Value) : string :=
  " " +:+ key +:+ "=" +:+ Value_String v.

Record slog_Record : Type := mkRecord {
  Time_ : time_Time;
  Message : string;
  Level : slog_Level;
  Record_attrs : list slog_Attr
}.

(** [Record.Attrs(f)]: [f] is called on each attribute in order, until it
    returns false. *)
Fixpoint range_Attrs {S : Type} (f : slog_Attr -> S -> S * bool)
    (l : list slog_Attr) (s : S) : S :=
  match l with
  | [] => s
  | a :: l' =>
      let '(s', continue) := f a s in
      if continue then range_Attrs f l' s' else s'
  end.

Definition Attrs {S : Type} (r : slog_Record)
    (f : slog_Attr -> S -> S * bool) (s : S) : S :=
  range_Attrs f (Record_attrs r) s.

(** ** Slices of attributes *)

(** A slice header. Every slice of this package starts at the first slot
    of its backing array; [data = None] is the nil pointer. *)
Record slice : Type := mkSlice { data : option nat; len : nat; cap : nat }.

Definition nil_slice : slice := mkSlice None 0 0.

(** The store of backing arrays; an array is allocated at its full
    capacity. *)
Abbreviation arrays_t := (list (list slog_Attr)).

(** The elements seen through a slice: slots [0 .. len-1]. *)
Definition elems (arrs : arrays_t) (s : slice) : list slog_Attr :=
  match data s with
  | None => []
  | Some a => take (len s) (default [] (arrs !! a))
  end.

(** [append(s, xs...)]: when the capacity suffices the new elements are
    written into the backing array of [s], behind its length; otherwise
    a larger array is allocated and the elements of [s] are copied. The
    new array has the capacity the runtime asks for, and never less than
    the length needed. *)
Definition append (arrs : arrays_t) (s : slice) (xs : list slog_Attr)
    : slice * arrays_t :=
  let n := len s + length xs in
  if (n <=? cap s)%nat then
    match data s with
    | Some a =>
        (mkSlice (Some a) n (cap s), alter (list_inserts (len s) xs) a arrs)
    | None => (s, arrs)
    end
  else
    let c := Nat.max n (growcap (cap s) n) in
    (mkSlice (Some (length arrs)) n c,
     arrs ++ [elems arrs s ++ xs ++ replicate (c - n) Attr_zero]).

(** ** The world: everything the handlers of a program share *)

(** Calls made on shared objects, in the order they happen. *)
Inductive event : Type :=
| EvLock (h : nat)
| EvUnlock (h : nat)
| EvRLock (h : nat)
| EvRUnlock (h : nat)
| EvWrite (dst : nat) (p : string).

Record world (H W : Type) : Type := mkWorld {
  arrays : arrays_t;       (* backing arrays of attribute slices *)
  handlers : list H;       (* handler structs, by address *)
  dests : list W;          (* destinations behind io.Writer values *)
  trace : list event       (* calls made so far *)
}.
#[global] Arguments mkWorld {H W} _ _ _ _.
#[global] Arguments arrays {H W} _.
#[global] Arguments handlers {H W} _.
#[global] Arguments dests {H W} _.
#[global] Arguments trace {H W} _.

Definition empty_world {H W : Type} : world H W := mkWorld [] [] [] [].

Definition set_arrays {H W} (arrs : arrays_t) (σ : world H W) : world H W :=
  mkWorld arrs (handlers σ) (dests σ) (trace σ).
Definition set_handlers {H W} (hs : list H) (σ : world H W) : world H W :=
  mkWorld (arrays σ) hs (dests σ) (trace σ).
Definition set_dests {H W} (ds : list W) (σ : world H W) : world H W :=
  mkWorld (arrays σ) (handlers σ) ds (trace σ).
Definition emit {H W} (e : event) (σ : world H W) : world H W :=
  mkWorld (arrays σ) (handlers σ) (dests σ) (trace σ ++ [e]).

(** A program creates its destination before it creates a handler. *)
Definition new_dest {H W} (d : W) (σ : world H W) : nat * world H W :=
  (length (dests σ), set_dests (dests σ ++ [d]) σ).

(** [dst.Write(p)] on the destination at address [dst]. *)
Definition call_Write {H W} `{Writer W} (dst : nat) (p : string)
    (σ : world H W) : option (option error * world H W) :=
  d ← dests σ !! dst;
  let '(d', (_, err)) := Writer_Write d p in
  Some (err, emit (EvWrite dst p) (set_dests (<[dst := d']> (dests σ)) σ)).
End Slog.

Abbreviation arrays_t := (list (list slog_Attr)).

(** ** The package: current definition (log.go, lines 1-122) *)

Definition DefaultTimeFormat : string := "2006/01/02 15:04:05".

Section Handler.
Context `{RT : GoRuntime} {W : Type} `{WR : Writer W}.

Record LogFormatHandler : Type := mkHandler {
  level : slog_Level;    (* Min log level that this handler processes. *)
  writer : nat;          (* Destination for log messages. *)
  attrs : slice;         (* Additional attrs included in every log entry. *)
  group : string;        (* Optional name for grouping log messages. *)
  timeFormat : string;   (* Format for timestamps in log messages. *)
  mu : RWMutex           (* Protects concurrent writes to the log output. *)
}.

Definition state : Type := world LogFormatHandler W.

Definition set_mu (m : RWMutex) (hd : LogFormatHandler) : LogFormatHandler :=
  mkHandler (level hd) (writer hd) (attrs hd) (group hd) (timeFormat hd) m.

(** A method of the mutex held in the struct at address [h]. *)
Definition call_mu (op : RWMutex -> option RWMutex) (e : event) (h : nat)
    (σ : state) : option state :=
  hd ← handlers σ !! h;
  m ← op (mu hd);
  Some (emit e (set_handlers (<[h := set_mu m hd]> (handlers σ)) σ)).

Definition mu_Lock (h : nat) : state -> option state := call_mu Lock (EvLock h) h.
Definition mu_Unlock (h : nat) : state -> option state := call_mu Unlock (EvUnlock h) h.
Definition mu_RLock (h : nat) : state -> option state := call_mu RLock (EvRLock h) h.
Definition mu_RUnlock (h : nat) : state -> option state := call_mu RUnlock (EvRUnlock h) h.

(** The line that [Handle] builds in [buf] for an admitted record, given
    the handler struct and the elements of its [attrs] slice. *)
Definition Handle_buf (hd : LogFormatHandler) (hattrs : list slog_Attr)
    (r : slog_Record) : string :=
  let buf := "" in
  (* Format timestamp, level, and message *)
  let buf := WriteString buf (Time_Format (Time_ r) (timeFormat hd)) in
  let buf := WriteString buf " " in
  let buf := WriteString buf (ToUpper (Level_String (Level r))) in
  let buf := WriteString buf " " in
  let buf :=
    if negb (String.eqb (group hd) "") then
      let buf := WriteString buf "[" in
      let buf := WriteString buf (group hd) in
      WriteString buf "] "
    else buf in
  let buf := WriteString buf (Message r) in
  (* Append record attributes *)
  let buf :=
    Attrs r (fun a buf =>
      (if negb (String.eqb (Key a) "")
       then WriteString buf (Sprintf_attr (Key a) (Value a))
       else buf, true)) buf in
  (* Append handler-level attributes *)
  let buf :=
    fold_left (fun buf attr =>
      if negb (String.eqb (Key attr) "")
      then WriteString buf (Sprintf_attr (Key attr) (Value attr))
      else buf) hattrs buf in
  WriteString buf newline.

(** [Handle]: the record is dropped below the handler's level; otherwise
    the line is built, then written while the handler's own mutex is held
    (the deferred [Unlock] runs before the result is returned). *)
Definition Handle (h : nat) (ctx : Context) (r : slog_Record) (σ : state)
    : option (option error * state) :=
  hd ← handlers σ !! h;
  if (Level r <? level hd)%Z then Some (None, σ)
  else
    let buf := Handle_buf hd (elems (arrays σ) (attrs hd)) r in
    (* the log is written with thread safety *)
    σ ← mu_Lock h σ;
    '(err, σ) ← call_Write (writer hd) buf σ;
    let result :=
      match err with
      | Some err => Some (Errorf_w "failed to write log: " err)
      | None => None
      end in
    σ ← mu_Unlock h σ;
    Some (result, σ).

(** [Enabled]: the comparison is made under the read lock. *)
Definition Enabled (h : nat) (ctx : Context) (lv : slog_Level) (σ : state)
    : option (bool * state) :=
  σ ← mu_RLock h σ;
  hd ← handlers σ !! h;
  let result := (level hd <=? lv)%Z in
  σ ← mu_RUnlock h σ;
  Some (result, σ).

(** [WithAttrs]: a new struct; [attrs] is the result of [append] on the
    receiver's slice, [mu] is a copy of the receiver's mutex value. *)
Definition WithAttrs (h : nat) (new : list slog_Attr) (σ : state)
    : option (nat * state) :=
  hd ← handlers σ !! h;
  let '(newAttrs, arrs) := append (arrays σ) (attrs hd) new in
  let child :=
    mkHandler (level hd) (writer hd) newAttrs (group hd) (timeFormat hd)
              (mu hd) in
  Some (length (handlers σ),
        set_handlers (handlers σ ++ [child]) (set_arrays arrs σ)).

(** [WithGroup]: a new struct sharing the receiver's slice header. *)
Definition WithGroup (h : nat) (name : string) (σ : state)
    : option (nat * state) :=
  hd ← handlers σ !! h;
  let child :=
    mkHandler (level hd) (writer hd) (attrs hd) name (timeFormat hd)
              (mu hd) in
  Some (length (handlers σ), set_handlers (handlers σ ++ [child]) σ).

(** [NewLogFormatHandler]: [attrs], [group] and [mu] are left at their
    zero values. *)
Definition NewLogFormatHandler (lv : slog_Level) (dst : nat)
    (format : string) (σ : state) : nat * state :=
  let format := if String.eqb format "" then DefaultTimeFormat else format in
  (length (handlers σ),
   set_handlers
     (handlers σ ++ [mkHandler lv dst nil_slice "" format RWMutex_zero]) σ).

(** The attributes a handler renders: the elements of its slice. *)
Definition chain (σ : state) (h : nat) : option (list slog_Attr) :=
  hd ← handlers σ !! h; Some (elems (arrays σ) (attrs hd)).
End Handler.

Arguments state {RT} W.

(** ** The package: earlier definition (log.go, lines 123-228) *)

Module Legacy.
Section Handler.
Context `{RT : GoRuntime} {W : Type} `{WR : Writer W}.

Record LogFormatHandler : Type := mkHandler {
  level : slog_Level;   (* Minimum log level to handle *)
  writer : nat;         (* Destination for log output *)
  attrs : slice;        (* Additional attributes for the handler *)
  group : string;       (* Optional log group for grouping messages *)
  mu : Mutex            (* Ensures thread-safe writes *)
}.

Definition state : Type := world LogFormatHandler W.

Definition set_mu (m : Mutex) (hd : LogFormatHandler) : LogFormatHandler :=
  mkHandler (level hd) (writer hd) (attrs hd) (group hd) m.

Definition call_mu (op : Mutex -> option Mutex) (e : event) (h : nat)
    (σ : state) : option state :=
  hd ← handlers σ !! h;
  m ← op (mu hd);
  Some (emit e (set_handlers (<[h := set_mu m hd]> (handlers σ)) σ)).

Definition mu_Lock (h : nat) : state -> option state :=
  call_mu Mutex_Lock (EvLock h) h.
Definition mu_Unlock (h : nat) : state -> option state :=
  call_mu Mutex_Unlock (EvUnlock h) h.

Definition Handle_buf (hd : LogFormatHandler) (hattrs : list slog_Attr)
    (r : slog_Record) : string :=
  let buf := "" in
  let buf := WriteString buf (Time_Format (Time_ r) "2006/01/02 15:04:05") in
  let buf := WriteString buf " " in
  let buf := WriteString buf (ToUpper (Level_String (Level r))) in
  let buf := WriteString buf " " in
  let buf :=
    if negb (String.eqb (group hd) "") then
      let buf := WriteString buf "[" in
      let buf := WriteString buf (group hd) in
      WriteString buf "] "
    else buf in
  let buf := WriteString buf (Message r) in
  (* Collect record attributes *)
  let buf :=
    Attrs r (fun a buf =>
      (WriteString buf (Sprintf_attr (Key a) (Value a)), true)) buf in
  (* Add handler-level attributes *)
  let buf :=
    fold_left (fun buf attr =>
      WriteString buf (Sprintf_attr (Key attr) (Value attr))) hattrs buf in
  WriteString buf newline.

Definition Handle (h : nat) (ctx : Context) (r : slog_Record) (σ : state)
    : option (option error * state) :=
  hd ← handlers σ !! h;
  if (Level r <? level hd)%Z then Some (None, σ)
  else
    let buf := Handle_buf hd (elems (arrays σ) (attrs hd)) r in
    σ ← mu_Lock h σ;
    '(err, σ) ← call_Write (writer hd) buf σ;
    let result :=
      match err with
      | Some err => Some (Errorf_w "failed to write log: " err)
      | None => None
      end in
    σ ← mu_Unlock h σ;
    Some (result, σ).

Definition Enabled (h : nat) (ctx : Context) (lv : slog_Level) (σ : state)
    : option (bool * state) :=
  hd ← handlers σ !! h;
  Some ((level hd <=? lv)%Z, σ).

(** [mu: sync.Mutex{}]: a new mutex for the new struct. *)
Definition WithAttrs (h : nat) (new : list slog_Attr) (σ : state)
    : option (nat * state) :=
  hd ← handlers σ !! h;
  let '(newAttrs, arrs) := append (arrays σ) (attrs hd) new in
  let child :=
    mkHandler (level hd) (writer hd) newAttrs (group hd) Mutex_zero in
  Some (length (handlers σ),
        set_handlers (handlers σ ++ [child]) (set_arrays arrs σ)).

Definition WithGroup (h : nat) (name : string) (σ : state)
    : option (nat * state) :=
  hd ← handlers σ !! h;
  let child :=
    mkHandler (level hd) (writer hd) (attrs hd) name Mutex_zero in
  Some (length (handlers σ), set_handlers (handlers σ ++ [child]) σ).

(** [attrs: []slog.Attr{}] is an empty array of its own. *)
Definition NewLogFormatHandler (lv : slog_Level) (dst : nat) (σ : state)
    : nat * state :=
  let empty := mkSlice (Some (length (arrays σ))) 0 0 in
  (length (handlers σ),
   set_handlers (handlers σ ++ [mkHandler lv dst empty "" Mutex_zero])
     (set_arrays (arrays σ ++ [[]]) σ)).
End Handler.

Arguments state {RT} W.
End Legacy.

(** ** Goroutines calling [Handle] at the same time

    A call of [Handle] by one goroutine, cut at the points where another
    goroutine can run: after the line is built, after [Lock], between the
    bytes of the one [Write], and before the deferred [Unlock]. The
    destination is not synchronised on its own (a [bytes.Buffer], as in
    the tests): the bytes of a [Write] reach it one after the other, and
    only the handler's mutex keeps another goroutine from writing in
    between. *)

Section Goroutines.
Context `{RT : GoRuntime} {W : Type} `{WR : Writer W}.

Inductive goroutine : Type :=
| Entry (h : nat) (r : slog_Record)              (* Handle(ctx, r) called *)
| Formatted (h : nat) (buf : string)             (* at h.mu.Lock() *)
| Writing (h : nat) (rest : string)              (* inside writer.Write *)
| Written (h : nat) (err : option error)         (* at the deferred Unlock *)
| Returned (result : option error).

(** One step of one goroutine; [None] when it cannot move (it waits for a
    lock, or it has returned). *)
Definition gstep (g : goroutine) (σ : state W) : option (goroutine * state W) :=
  match g with
  | Entry h r =>
      hd ← handlers σ !! h;
      if (Level r <? level hd)%Z then Some (Returned None, σ)
      else Some (Formatted h (Handle_buf hd (elems (arrays σ) (attrs hd)) r), σ)
  | Formatted h buf =>
      σ ← mu_Lock h σ; Some (Writing h buf, σ)
  | Writing h EmptyString => Some (Written h None, σ)
  | Writing h (String c rest) =>
      hd ← handlers σ !! h;
      '(err, σ) ← call_Write (writer hd) (String c EmptyString) σ;
      match err with
      | Some _ => Some (Written h err, σ)
      | None => Some (Writing h rest, σ)
      end
  | Written h err =>
      σ ← mu_Unlock h σ;
      Some (Returned
              match err with
              | Some err => Some (Errorf_w "failed to write log: " err)
              | None => None
              end, σ)
  | Returned _ => None
  end.

(** The goroutines of a program and the world they share. *)
Definition config : Type := list goroutine * state W.

(** Goroutine [i] takes a step. *)
Definition sched_step (i : nat) (c : config) : option config :=
  g ← c.1 !! i;
  '(g', σ) ← gstep g c.2;
  Some (<[i := g']> c.1, σ).

(** A schedule: which goroutine moves at each step. *)
Fixpoint run (sched : list nat) (c : config) : option config :=
  match sched with
  | [] => Some c
  | i :: sched' => c' ← sched_step i c; run sched' c'
  end.

Definition is_Returned (g : goroutine) : bool :=
  match g with Returned _ => true | _ => false end.

(** The goroutine is between [Lock] and [Unlock] of its handler's mutex. *)
Definition in_critical (g : goroutine) : bool :=
  match g with Writing _ _ | Written _ _ => true | _ => false end.

Definition critical_count (gs : list goroutine) : nat :=
  length (List.filter in_critical gs).

(** The goroutine's call is on the handler at address [h]. *)
Definition on_handler (h : nat) (g : goroutine) : bool :=
  match g with
  | Entry h' _ | Formatted h' _ | Writing h' _ | Written h' _ => (h' =? h)%nat
  | Returned _ => true
  end.

(** All goroutines call [Handle] on [h], whose mutex is held exactly when
    one of them is in its critical section, and has no readers. *)
Definition excl (h : nat) (c : config) : Prop :=
  forallb (on_handler h) c.1 = true
  /\ exists hd, handlers c.2 !! h = Some hd
               /\ readerCount (mu hd) = 0
               /\ critical_count c.1 = (if w (mu hd) then 1 else 0).
End Goroutines.

Arguments config {RT} W.

(** ** Well-formed worlds

    What holds of every handler between two calls of a sequential program:
    its slice lies within an allocated array, its mutex is free, and its
    destination exists. *)

Section WellFormed.
Context `{RT : GoRuntime} {W : Type}.

Definition slice_ok (arrs : arrays_t) (s : slice) : bool :=
  match data s with
  | None => (len s =? 0)%nat && (cap s =? 0)%nat
  | Some a =>
      match arrs !! a with
      | Some arr => (len s <=? cap s)%nat && (cap s =? length arr)%nat
      | None => false
      end
  end.

Definition mu_free (m : RWMutex) : bool :=
  negb (w m) && (readerCount m =? 0)%nat.

Definition handler_ok (σ : state W) (hd : LogFormatHandler) : bool :=
  slice_ok (arrays σ) (attrs hd) && mu_free (mu hd)
  && (writer hd <? length (dests σ))%nat.

Definition wf (σ : state W) : bool := forallb (handler_ok σ) (handlers σ).
End WellFormed.

(** ** The line as the specification describes it

    Timestamp, level name in upper case, the group in brackets when there
    is one, the message, then every attribute of the record and every
    attribute of the chain as [ key=value], then a newline. *)

Section SpecLine.
Context `{RT : GoRuntime}.

Definition render_attr (a : slog_Attr) : string :=
  " " +:+ Key a +:+ "=" +:+ Value_String (Value a).

Definition concat_map (f : slog_Attr -> string) (l : list slog_Attr) : string :=
  fold_right (fun a s => f a +:+ s) "" l.

Definition has_key (a : slog_Attr) : bool := negb (String.eqb (Key a) "").

Definition line_of (tf : string) (grp : string) (r : slog_Record)
    (shown : list slog_Attr) : string :=
  Time_Format (Time_ r) tf +:+ " " +:+ ToUpper (Level_String (Level r)) +:+ " "
  +:+ (if String.eqb grp "" then "" else "[" +:+ grp +:+ "] ")
  +:+ Message r +:+ concat_map render_attr shown +:+ newline.

(** The specification's line: all attributes are shown. *)
Definition spec_line (tf grp : string) (r : slog_Record)
    (chain_attrs : list slog_Attr) : string :=
  line_of tf grp r (Record_attrs r ++ chain_attrs).

(** The number of newline bytes in a text. *)
Fixpoint count_newlines (s : string) : nat :=
  match s with
  | EmptyString => 0
  | String c s' =>
      (if Ascii.eqb c (ascii_of_nat 10) then 1 else 0) + count_newlines s'
  end.

(** One line of text ended by a newline: the only newline is the last
    byte. *)
Definition single_line (s : string) : Prop :=
  exists body, s = body +:+ newline /\ count_newlines body = 0.
End SpecLine.

(** The attributes [Handle] shows: those of the record, then those of the
    chain, without the ones whose key is empty. *)
Definition shown_attrs `{RT : GoRuntime} {W : Type} (σ : state W)
    (hd : LogFormatHandler) (r : slog_Record) : list slog_Attr :=
  List.filter has_key (Record_attrs r)
  ++ List.filter has_key (elems (arrays σ) (attrs hd)).

(** ** A reference environment

    One concrete choice for what the package leaves open, used to run the
    package's tests and the scenarios of the specification. *)

Module Ref.

(** A wall-clock time. *)
Record civil : Type := mkCivil {
  year : nat; month : nat; day : nat;
  hour : nat; minute : nat; second : nat
}.

Definition digits (n : nat) : string := NilZero.string_of_uint (Nat.to_uint n).

Fixpoint zeros (k : nat) : string :=
  match k with O => "" | S k' => "0" +:+ zeros k' end.

Definition pad (width n : nat) : string :=
  zeros (width - String.length (digits n)) +:+ digits n.

(** [time.Time.Format] for layouts made of the numeric chunks 2006, 01, 02,
    15, 04, 05 and separators; [skip] counts the bytes of a chunk still to
    be passed over. *)
Fixpoint Format_from (t : civil) (skip : nat) (layout : string) : string :=
  match layout with
  | EmptyString => EmptyString
  | String c rest =>
      match skip with
      | S k => Format_from t k rest
      | O =>
          if String.prefix "2006" layout then pad 4 (year t) +:+ Format_from t 3 rest
          else if String.prefix "01" layout then pad 2 (month t) +:+ Format_from t 1 rest
          else if String.prefix "02" layout then pad 2 (day t) +:+ Format_from t 1 rest
          else if String.prefix "15" layout then pad 2 (hour t) +:+ Format_from t 1 rest
          else if String.prefix "04" layout then pad 2 (minute t) +:+ Format_from t 1 rest
          else if String.prefix "05" layout then pad 2 (second t) +:+ Format_from t 1 rest
          else String c (Format_from t 0 rest)
      end
  end.

Definition Format (t : civil) (layout : string) : string := Format_from t 0 layout.

(** The capacity the Go runtime asks for when a slice grows
    ([nextslicecap]): the needed length when that is more than double the
    old capacity, double the old capacity below 256 elements, and steps of
    a quarter (plus 192) above. The rounding up to an allocator size class
    is left out; for 40-byte attributes it leaves capacities 1, 2, 4 and 8
    as they are. *)
Fixpoint grow_loop (fuel newcap newLen : nat) : nat :=
  match fuel with
  | O => newcap
  | S fuel' =>
      let newcap := newcap + (newcap + 3 * 256) / 4 in
      if (newLen <=? newcap)%nat then newcap else grow_loop fuel' newcap newLen
  end.

Definition nextslicecap (newLen oldCap : nat) : nat :=
  let doublecap := oldCap + oldCap in
  if (doublecap <? newLen)%nat then newLen
  else if (oldCap <? 256)%nat then doublecap
  else grow_loop newLen oldCap newLen.

#[export] Instance runtime : GoRuntime := {|
  time_Time := civil;
  Time_Format := Format;
  any := string;
  fmt_any := fun s => s;
  growcap := fun oldCap newLen => nextslicecap newLen oldCap
|}.

(** Two destinations: a [bytes.Buffer], and one whose [Write] fails. *)
Inductive dest : Type :=
| Buffer (contents : string)
| Failing (err : error).

#[export] Instance dest_Writer : Writer dest := fun d p =>
  match d with
  | Buffer contents => (Buffer (contents +:+ p), (Z.of_nat (String.length p), None))
  | Failing err => (Failing err, (0%Z, Some err))
  end.

Definition St : Type := state dest.
Definition LegacySt : Type := Legacy.state dest.
End Ref.

(** ** Scenarios

    The programs of the package's tests and of the specification's
    examples, in the reference environment. *)

Module Scenario.
Import Ref.

(** 2025-01-11 12:00:00 *)
Definition t0 : civil := mkCivil 2025 1 11 12 0 0.

Definition attr (k v : string) : slog_Attr := mkAttr k (StringValue v).

(** A [bytes.Buffer] at address 0, and a handler at level Info on it. *)
Definition w0 : St := (new_dest (Buffer "") empty_world).2.
Definition root : nat := (NewLogFormatHandler LevelInfo 0 DefaultTimeFormat w0).1.
Definition w1 : St := (NewLogFormatHandler LevelInfo 0 DefaultTimeFormat w0).2.

Definition r_test : slog_Record := mkRecord t0 "Test message" LevelInfo [].
Definition r_error : slog_Record :=
  mkRecord t0 "Error occurred" LevelError
    [attr "key" "value"; mkAttr "code" (Int64Value 123)].
Definition r_debug : slog_Record := mkRecord t0 "Should not log" LevelDebug [].

(** A destination whose [Write] fails. *)
Definition w_failing : St :=
  (NewLogFormatHandler LevelInfo 0 ""
     (new_dest (Failing (errorString "disk full")) empty_world).2).2.

(** [root.WithAttrs(a).WithAttrs(b).WithAttrs(c)]: the third slice has
    length 3 and capacity 4. *)
Definition three : option (nat * St) :=
  '(h1, σ) ← WithAttrs root [attr "a" "1"] w1;
  '(h2, σ) ← WithAttrs h1 [attr "b" "2"] σ;
  WithAttrs h2 [attr "c" "3"] σ.

(** What a handler writes for [r_test], as the trace records it. *)
Definition written (h : nat) (σ : St) : option (list event) :=
  '(_, σ') ← Handle h Background r_test σ;
  Some (drop (length (trace σ)) (trace σ')).

(** A handler derived from [root], as in the package's tests. *)
Definition with_env : option (nat * St) :=
  WithAttrs root [attr "env" "production"] w1.
Definition with_group : option (nat * St) := WithGroup root "TestGroup" w1.

(** Two goroutines: one calls [Handle] on [root], the other on the
    handler derived from it. *)
Definition r_one : slog_Record := mkRecord t0 "one" LevelInfo [].
Definition r_two : slog_Record := mkRecord t0 "two" LevelInfo [].
Definition line_one : string := "2025/01/11 12:00:00 INFO one" +:+ newline.
Definition line_two : string :=
  "2025/01/11 12:00:00 INFO two env=production" +:+ newline.

Definition two_goroutines : option (config dest) :=
  '(child, σ) ← with_env; Some ([Entry root r_one; Entry child r_two], σ).

(** Both enter and take their lock; the first writes five bytes; the
    second writes its whole line and returns; the first goes on. *)
Definition interleaved : list nat :=
  [0; 1; 0; 1] ++ replicate 5 0 ++ replicate 46 1 ++ replicate 26 0.

(** The same two calls on one handler: the second cannot take the lock
    while the first holds it. *)
Definition same_handler : config dest := ([Entry root r_one; Entry root r_two], w1).

(** The earlier definition of the package on the same destination. *)
Definition lw0 : LegacySt := (new_dest (Buffer "") empty_world).2.
Definition lroot : nat := (Legacy.NewLogFormatHandler LevelInfo 0 lw0).1.
Definition lw1 : LegacySt := (Legacy.NewLogFormatHandler LevelInfo 0 lw0).2.

(** A record with an attribute whose key is empty. *)
Definition r_nokey : slog_Record :=
  mkRecord t0 "msg" LevelInfo [attr "" "v"; attr "k" "w"].

(** A record with a message of two lines and an attribute without key. *)
Definition r_two_lines : slog_Record :=
  mkRecord t0 ("first" +:+ newline +:+ "second") LevelInfo [attr "" "v"].
End Scenario.

(** ** Worlds a sequential program can build

    Starting from nothing, a program creates destinations and handlers,
    derives handlers, and calls [Handle] and [Enabled], one call at a
    time. *)

Section Reachable.
Context `{RT : GoRuntime} {W : Type} `{WR : Writer W}.

End Reachable.

(** ** What a run of goroutines hands to the destination *)

(** The texts of a list, one after the other. *)
Fixpoint join (l : list string) : string :=
  match l with
  | [] => ""
  | s :: l' => s +:+ join l'
  end.

(** The bytes given to [Write] calls, in the order of the trace. *)
Definition payload (e : event) : list string :=
  match e with EvWrite _ p => [p] | _ => [] end.

Definition written_bytes (tr : list event) : string := join (flat_map payload tr).

Section Serial.
Context `{RT : GoRuntime} {W : Type} `{WR : Writer W}.

(** What a goroutine inside [Write] has still to hand over. *)
Definition remaining (g : goroutine) : list string :=
  match g with Writing _ rest => [rest] | _ => [] end.

(** The line a goroutine has yet to write, if its record is admitted by a
    handler with the fields of [hd0] over the arrays [arrs0]. *)
Definition pending (hd0 : LogFormatHandler) (arrs0 : arrays_t)
    (g : goroutine) : list string :=
  match g with
  | Entry _ r =>
      if (Level r <? level hd0)%Z then []
      else [Handle_buf hd0 (elems arrs0 (attrs hd0)) r]
  | Formatted _ buf => [buf]
  | _ => []
  end.

(** The lines of the records that a handler admits. *)
Definition admitted_lines (hd0 : LogFormatHandler) (arrs0 : arrays_t)
    (rs : list slog_Record) : list string :=
  flat_map (fun r => pending hd0 arrs0 (Entry 0 r)) rs.

(** The state of a run on the one handler [h]: [done] are the lines
    written in full, in order; [pre] is the part already written of the
    line being written; the lines done, being written and yet to be
    written are the lines [L0] the run started with. [n0] is the length
    of the trace at the start. *)
Definition ser_inv (h : nat) (hd0 : LogFormatHandler) (arrs0 : arrays_t)
    (n0 : nat) (L0 : list string) (c : config W) : Prop :=
  excl h c
  /\ arrays c.2 = arrs0
  /\ (exists m, handlers c.2 !! h = Some (set_mu m hd0))
  /\ n0 <= length (trace c.2)
  /\ exists done pre,
       written_bytes (drop n0 (trace c.2)) = join done +:+ pre
       /\ (flat_map remaining c.1 = [] -> pre = "")
       /\ done ++ map (String.append pre) (flat_map remaining c.1)
             ++ flat_map (pending hd0 arrs0) c.1 ≡ₚ L0.

(** A destination whose [Write] never fails. *)
Definition never_fails : Prop :=
  forall (d : W) (p : string), (Writer_Write d p).2.2 = None.
End Serial.

(** A plain buffer: [Write] appends and never fails. *)
Module Plain.
#[export] Instance buffer_Writer : Writer string := fun d p =>
  (d +:+ p, (Z.of_nat (String.length p), None)).
End Plain.

(** ** The tests' helper [removeTimestamp] (log_test.go)

    [regexp.MustCompile(`^\d{4}/\d{2}/\d{2} \d{2}:\d{2}:\d{2} `)] matches at
    the start of the text only, so [ReplaceAllString(output, "")] removes
    the first twenty bytes when they have that shape and returns the text
    as it is otherwise. *)

(** A position of the pattern: a decimal digit, or one given byte. *)
Inductive pat : Type :=
| Digit
| Byte (c : ascii).

Definition is_digit (c : ascii) : bool :=
  let n := nat_of_ascii c in (48 <=? n)%nat && (n <=? 57)%nat.

Definition pat_matches (x : pat) (c : ascii) : bool :=
  match x with
  | Digit => is_digit c
  | Byte c' => Ascii.eqb c c'
  end.

(** The text behind the pattern, when the text starts with it. *)
Fixpoint match_prefix (p : list pat) (s : string) : option string :=
  match p with
  | [] => Some s
  | x :: p' =>
      match s with
      | EmptyString => None
      | String c s' => if pat_matches x c then match_prefix p' s' else None
      end
  end.

Definition timestamp_re : list pat :=
  [Digit; Digit; Digit; Digit; Byte "/"; Digit; Digit; Byte "/"; Digit; Digit;
   Byte " "; Digit; Digit; Byte ":"; Digit; Digit; Byte ":"; Digit; Digit;
   Byte " "].

Definition removeTimestamp (output : string) : string :=
  match match_prefix timestamp_re output with
  | Some rest => rest
  | None => output
  end.

(** The text is [k] decimal digits and nothing else. *)
Definition digits_only (k : nat) (s : string) : bool :=
  match match_prefix (replicate k Digit) s with
  | Some "" => true
  | _ => false
  end.

(** ** More scenarios *)

Module Cases.
Import Ref Scenario Plain.

(** The struct of [root]. *)
Definition root_hd : LogFormatHandler :=
  mkHandler LevelInfo 0 nil_slice "" DefaultTimeFormat RWMutex_zero.

(** [root] with its mutex held by a writer. *)
Definition w_held : St := default w1 (mu_Lock root w1).

(** The handler [three] returns, whose slice has length 3 and capacity 4. *)
Definition h3 : nat := default 0 (fst <$> three).
Definition w3 : St := default w1 (snd <$> three).
Definition h3_hd : LogFormatHandler :=
  mkHandler LevelInfo 0 (mkSlice (Some 2) 3 4) "" DefaultTimeFormat RWMutex_zero.

(** Two handlers derived from [h3], and two derived from [root]. *)
Definition w3x : St := default w3 (snd <$> WithAttrs h3 [attr "x" "4"] w3).
Definition w3xy : St := default w3 (snd <$> WithAttrs h3 [attr "y" "5"] w3x).
Definition w1x : St := default w1 (snd <$> WithAttrs root [attr "x" "4"] w1).
Definition w1xy : St := default w1 (snd <$> WithAttrs root [attr "y" "5"] w1x).

(** The earlier definition: the struct of [lroot], and [lroot] with its
    mutex held. *)
Definition lroot_hd : Legacy.LogFormatHandler :=
  Legacy.mkHandler LevelInfo 0 (mkSlice (Some 0) 0 0) "" Mutex_zero.
Definition lw_held : LegacySt := default lw1 (Legacy.mu_Lock lroot lw1).

(** A handler on a plain buffer, and three goroutines calling [Handle] on
    it; the second record is below the handler's level. *)
Definition pw1 : state string :=
  (NewLogFormatHandler LevelInfo 0 DefaultTimeFormat
     (new_dest "" empty_world).2).2.
Definition three_records : list slog_Record := [r_one; r_debug; r_two].

(** The third goroutine takes the lock first; the first waits for it. *)
Definition third_first : list nat :=
  [0; 1; 2] ++ replicate 32 2 ++ replicate 32 0.
Definition c_end : config string :=
  default ([], pw1) (run third_first (map (Entry 0) three_records, pw1)).

(** The goroutines half way: the third is writing. *)
Definition c_mid : config string :=
  default ([], pw1) (run ([0; 1; 2] ++ replicate 5 2)
                       (map (Entry 0) three_records, pw1)).
End Cases.

(** ** A handler derived while a goroutine is writing *)

Module Leak.
Import Ref Scenario.



End Leak.

(* ================================================================== *)
(** * Part II: properties *)
(* ================================================================== *)

(** ** Text *)

Lemma append_assoc (a b c : string) : (a +:+ b) +:+ c = a +:+ (b +:+ c).
Proof. induction a as [|x a IH]; simpl; [reflexivity | now rewrite IH]. Qed.

Lemma append_empty_r (a : string) : a +:+ "" = a.
Proof. induction a as [|x a IH]; simpl; [reflexivity | now rewrite IH]. Qed.

Lemma count_newlines_append (a b : string) :
  count_newlines (a +:+ b) = count_newlines a + count_newlines b.
Proof. induction a as [|x a IH]; simpl; [reflexivity | rewrite IH; lia]. Qed.

Lemma upper_ascii_newline (c : ascii) :
  Ascii.eqb (upper_ascii c) (ascii_of_nat 10) = Ascii.eqb c (ascii_of_nat 10).
Proof. destruct c as [[] [] [] [] [] [] [] []]; vm_compute; reflexivity. Qed.

Lemma count_newlines_ToUpper (s : string) :
  count_newlines (ToUpper s) = count_newlines s.
Proof.
  induction s as [|c s IH]; simpl; [reflexivity|].
  now rewrite upper_ascii_newline, IH.
Qed.

Lemma count_newlines_uint (d : Decimal.uint) :
  count_newlines (NilEmpty.string_of_uint d) = 0.
Proof. induction d; simpl; auto. Qed.

Lemma count_newlines_FormatInt (n : Z) : count_newlines (FormatInt n) = 0.
Proof.
  unfold FormatInt, NilZero.string_of_int.
  destruct (Z.to_int n) as [d|d]; unfold NilZero.string_of_uint;
    destruct d; simpl; auto using count_newlines_uint.
Qed.

(** A level name never holds a newline. *)
Lemma count_newlines_Level (l : slog_Level) :
  count_newlines (ToUpper (Level_String l)) = 0.
Proof.
  rewrite count_newlines_ToUpper. unfold Level_String, Sprintf_plus_d.
  repeat match goal with
         | |- context [if ?b then _ else _] => destruct b
         end;
    rewrite ?count_newlines_append, ?count_newlines_FormatInt; reflexivity.
Qed.

(** ** The line built by [Handle] *)

Section Line.
Context `{RT : GoRuntime}.

Lemma concat_map_app (f : slog_Attr -> string) (l1 l2 : list slog_Attr) :
  concat_map f (l1 ++ l2) = concat_map f l1 +:+ concat_map f l2.
Proof.
  induction l1 as [|a l1 IH]; simpl; [reflexivity|].
  now rewrite IH, append_assoc.
Qed.

(** The callback of [Handle] never stops the iteration. *)
Lemma range_Attrs_all {S : Type} (g : slog_Attr -> S -> S)
    (l : list slog_Attr) (s : S) :
  range_Attrs (fun a s => (g a s, true)) l s = fold_left (fun s a => g a s) l s.
Proof. revert s; induction l as [|a l IH]; intros s; simpl; auto. Qed.

Lemma fold_shown (l : list slog_Attr) (buf : string) :
  fold_left (fun buf a =>
    if negb (String.eqb (Key a) "")
    then WriteString buf (Sprintf_attr (Key a) (Value a)) else buf) l buf
  = buf +:+ concat_map render_attr (List.filter has_key l).
Proof.
  revert buf; induction l as [|a l IH]; intros buf; simpl.
  - now rewrite append_empty_r.
  - rewrite IH. unfold has_key. destruct (negb (String.eqb (Key a) "")); simpl.
    + unfold WriteString. now rewrite append_assoc.
    + reflexivity.
Qed.

Lemma fold_all (l : list slog_Attr) (buf : string) :
  fold_left (fun buf a => WriteString buf (Sprintf_attr (Key a) (Value a))) l buf
  = buf +:+ concat_map render_attr l.
Proof.
  revert buf; induction l as [|a l IH]; intros buf; simpl.
  - now rewrite append_empty_r.
  - rewrite IH. unfold WriteString. now rewrite append_assoc.
Qed.

(** The buffer of the current [Handle]: attributes with an empty key are
    left out, the others come in order, the record's first. *)
Lemma Handle_buf_line (hd : LogFormatHandler) (hattrs : list slog_Attr)
    (r : slog_Record) :
  Handle_buf hd hattrs r
  = line_of (timeFormat hd) (group hd) r
      (List.filter has_key (Record_attrs r) ++ List.filter has_key hattrs).
Proof.
  unfold Handle_buf, line_of, Attrs.
  rewrite range_Attrs_all, !fold_shown, concat_map_app.
  unfold WriteString. destruct (String.eqb (group hd) ""); simpl;
    rewrite ?append_assoc; reflexivity.
Qed.

(** The buffer of the earlier [Handle]: every attribute is shown. *)
Lemma Legacy_Handle_buf_line (hd : Legacy.LogFormatHandler)
    (hattrs : list slog_Attr) (r : slog_Record) :
  Legacy.Handle_buf hd hattrs r
  = spec_line "2006/01/02 15:04:05" (Legacy.group hd) r hattrs.
Proof.
  unfold Legacy.Handle_buf, spec_line, line_of, Attrs.
  rewrite range_Attrs_all, !fold_all, concat_map_app.
  unfold WriteString. destruct (String.eqb (Legacy.group hd) ""); simpl;
    rewrite ?append_assoc; reflexivity.
Qed.

Lemma count_newlines_concat_map (l : list slog_Attr) :
  Forall (fun a => count_newlines (Key a) = 0
                   /\ count_newlines (Value_String (Value a)) = 0) l ->
  count_newlines (concat_map render_attr l) = 0.
Proof.
  induction 1 as [|a l [Hk Hv] _ IH]; [reflexivity|].
  change (concat_map render_attr (a :: l))
    with (render_attr a +:+ concat_map render_attr l).
  rewrite count_newlines_append, IH. unfold render_attr.
  rewrite !count_newlines_append, Hk, Hv. reflexivity.
Qed.

(** When no part holds a newline, the line is one line. *)
Lemma line_of_single_line (tf grp : string) (r : slog_Record)
    (shown : list slog_Attr) :
  count_newlines (Time_Format (Time_ r) tf) = 0 ->
  count_newlines grp = 0 ->
  count_newlines (Message r) = 0 ->
  Forall (fun a => count_newlines (Key a) = 0
                   /\ count_newlines (Value_String (Value a)) = 0) shown ->
  single_line (line_of tf grp r shown).
Proof.
  intros Ht Hg Hm Ha.
  exists (Time_Format (Time_ r) tf +:+ " " +:+ ToUpper (Level_String (Level r))
          +:+ " " +:+ (if String.eqb grp "" then "" else "[" +:+ grp +:+ "] ")
          +:+ Message r +:+ concat_map render_attr shown).
  split.
  - unfold line_of. rewrite !append_assoc. reflexivity.
  - rewrite !count_newlines_append, Ht, Hm, count_newlines_Level,
      (count_newlines_concat_map _ Ha).
    destruct (String.eqb grp ""); simpl;
      rewrite ?count_newlines_append, ?Hg; reflexivity.
Qed.
End Line.

(** ** One call at a time *)

Section Sequential.
Context `{RT : GoRuntime} {W : Type} `{WR : Writer W}.
Implicit Types (σ : state W) (hd : LogFormatHandler) (h : nat).

Lemma mu_free_zero (m : RWMutex) : mu_free m = true -> m = RWMutex_zero.
Proof.
  destruct m as [[] [|n]]; unfold mu_free; simpl; try discriminate.
  reflexivity.
Qed.

Lemma wf_lookup σ h hd :
  wf σ = true -> handlers σ !! h = Some hd -> handler_ok σ hd = true.
Proof.
  unfold wf. rewrite forallb_forall. intros Hwf Hh. apply Hwf.
  apply list_elem_of_In. eapply list_elem_of_lookup_2; eauto.
Qed.

(** In a well-formed world a handler's mutex is free and its destination
    exists. *)
Lemma wf_handler σ h hd :
  wf σ = true -> handlers σ !! h = Some hd ->
  slice_ok (arrays σ) (attrs hd) = true /\ mu hd = RWMutex_zero
  /\ exists d, dests σ !! writer hd = Some d.
Proof.
  intros Hwf Hh. pose proof (wf_lookup _ _ _ Hwf Hh) as Hok.
  unfold handler_ok in Hok.
  apply andb_prop in Hok as [Hok Hw]. apply andb_prop in Hok as [Hs Hm].
  split; [exact Hs|]. split; [now apply mu_free_zero|].
  apply Nat.ltb_lt in Hw. now apply lookup_lt_is_Some_2.
Qed.

Lemma call_mu_Some (op : RWMutex -> option RWMutex) (e : event) h σ hd m :
  handlers σ !! h = Some hd -> op (mu hd) = Some m ->
  call_mu op e h σ
  = Some (emit e (set_handlers (<[h := set_mu m hd]> (handlers σ)) σ)).
Proof. intros Hh Hop. unfold call_mu. rewrite Hh. simpl. now rewrite Hop. Qed.

Lemma call_Write_Some (dst : nat) (p : string) σ (d : W) :
  dests σ !! dst = Some d ->
  call_Write dst p σ
  = Some ((Writer_Write d p).2.2,
          emit (EvWrite dst p)
            (set_dests (<[dst := (Writer_Write d p).1]> (dests σ)) σ)).
Proof.
  intros Hd. unfold call_Write. rewrite Hd. simpl.
  destruct (Writer_Write d p) as [d' [n err]]. reflexivity.
Qed.

(** [Handle] on an admitted record, when the handler's mutex is free: the
    line is written once, between [Lock] and [Unlock] of the handler's
    mutex, and nothing else changes. *)
Lemma Handle_admitted σ h hd (d : W) (ctx : Context) (r : slog_Record) :
  handlers σ !! h = Some hd ->
  mu hd = RWMutex_zero ->
  dests σ !! writer hd = Some d ->
  (level hd <= Level r)%Z ->
  let buf := Handle_buf hd (elems (arrays σ) (attrs hd)) r in
  Handle h ctx r σ
  = Some (wrap_write_error (Writer_Write d buf).2.2,
          mkWorld (arrays σ) (handlers σ)
            (<[writer hd := (Writer_Write d buf).1]> (dests σ))
            (trace σ ++ [EvLock h; EvWrite (writer hd) buf; EvUnlock h])).
Proof.
  intros Hh Hmu Hd Hlv buf. unfold Handle. rewrite Hh. simpl.
  destruct (Z.ltb_spec (Level r) (level hd)) as [Hlt|_]; [lia|].
  fold buf. unfold mu_Lock.
  erewrite call_mu_Some by (eauto; rewrite Hmu; reflexivity). simpl.
  erewrite call_Write_Some by (simpl; eauto). simpl.
  unfold mu_Unlock.
  erewrite call_mu_Some; cycle 1.
  { simpl. apply list_lookup_insert_eq. eapply lookup_lt_Some; eauto. }
  { simpl. reflexivity. }
  simpl. unfold emit, set_handlers, set_dests, wrap_write_error. simpl.
  rewrite list_insert_insert_eq.
  replace (set_mu _ (set_mu _ hd)) with hd
    by (destruct hd; simpl in *; subst; reflexivity).
  rewrite list_insert_id by exact Hh.
  rewrite <- !app_assoc. simpl.
  destruct ((Writer_Write d buf).2.2); reflexivity.
Qed.

Lemma Enabled_Some σ h hd (ctx : Context) (lv : slog_Level) :
  handlers σ !! h = Some hd -> w (mu hd) = false ->
  Enabled h ctx lv σ
  = Some ((level hd <=? lv)%Z,
          mkWorld (arrays σ) (handlers σ) (dests σ)
            (trace σ ++ [EvRLock h; EvRUnlock h])).
Proof.
  intros Hh Hw. unfold Enabled, mu_RLock, mu_RUnlock.
  erewrite call_mu_Some by (eauto; unfold RLock; rewrite Hw; reflexivity).
  simpl.
  rewrite list_lookup_insert_eq by (eapply lookup_lt_Some; eauto). simpl.
  erewrite call_mu_Some; cycle 1.
  { simpl. apply list_lookup_insert_eq. eapply lookup_lt_Some; eauto. }
  { simpl. reflexivity. }
  simpl. unfold emit, set_handlers. simpl.
  rewrite list_insert_insert_eq.
  replace (set_mu _ (set_mu _ hd)) with hd
    by (destruct hd as [? ? ? ? ? [? ?]]; simpl in *; subst; reflexivity).
  rewrite list_insert_id by exact Hh.
  rewrite <- !app_assoc. reflexivity.
Qed.

Lemma Handle_dropped σ h hd (ctx : Context) (r : slog_Record) :
  handlers σ !! h = Some hd ->
  (Level r < level hd)%Z ->
  Handle h ctx r σ = Some (None, σ).
Proof.
  intros Hh Hlt. unfold Handle. rewrite Hh. simpl.
  destruct (Z.ltb_spec (Level r) (level hd)); [reflexivity | lia].
Qed.

(** C6. A record below the handler's level: [Handle] returns nil and the
    world is the one it started from, so nothing reached the destination
    and no call was made on the mutex (the trace is unchanged); this holds
    whatever the state of the mutex. *)
Theorem Handle_below_level σ h hd (ctx : Context) (r : slog_Record) :
  handlers σ !! h = Some hd ->
  (Level r < level hd)%Z ->
  Handle h ctx r σ = Some (None, σ).
Proof. apply Handle_dropped. Qed.


(** C10. Neither [Handle] nor [Enabled] looks at its context. *)
Theorem context_ignored σ h (c1 c2 : Context) (r : slog_Record)
    (lv : slog_Level) :
  Handle h c1 r σ = Handle h c2 r σ /\ Enabled h c1 lv σ = Enabled h c2 lv σ.
Proof. split; reflexivity. Qed.

(** C9. The handler made by [NewLogFormatHandler] has the given level and
    destination, no attributes and no group; an empty time format is
    replaced by the default layout [2006/01/02 15:04:05], any other is
    kept; under the reference layout rules the default prints a time as
    YYYY/MM/DD hh:mm:ss with the hour on the 24-hour clock. *)
Theorem NewLogFormatHandler_fields σ (lv : slog_Level) (dst : nat)
    (format : string) :
  let p := NewLogFormatHandler lv dst format σ in
  (exists hd,
     handlers p.2 !! p.1 = Some hd
     /\ level hd = lv /\ writer hd = dst
     /\ timeFormat hd = (if String.eqb format "" then DefaultTimeFormat else format)
     /\ attrs hd = nil_slice /\ chain p.2 p.1 = Some []
     /\ group hd = "")
  /\ DefaultTimeFormat = "2006/01/02 15:04:05"
  /\ (forall t : Ref.civil,
        Ref.Format t DefaultTimeFormat
        = Ref.pad 4 (Ref.year t) +:+ "/" +:+ Ref.pad 2 (Ref.month t) +:+ "/"
          +:+ Ref.pad 2 (Ref.day t) +:+ " " +:+ Ref.pad 2 (Ref.hour t) +:+ ":"
          +:+ Ref.pad 2 (Ref.minute t) +:+ ":" +:+ Ref.pad 2 (Ref.second t)).
Proof.
  simpl. split; [|split; [reflexivity|]].
  - eexists. unfold chain. simpl.
    rewrite lookup_app_r, Nat.sub_diag by lia. simpl.
    repeat split; reflexivity.
  - intros t. unfold Ref.Format. simpl. rewrite ?append_empty_r.
    rewrite ?append_assoc. reflexivity.
Qed.

(** C4 (as amended). For an admitted record, [Handle] writes once, and
    what it writes is: the time in the handler's format, a space, the
    level name in upper case, a space, the group in brackets and a space
    when the group is not empty, the message, then the record's attributes
    and the chain's attributes that have a key, in order, each as
    [ key=value], then a newline. The text depends on the record and on
    the handler's format, group and chain alone. It is one line when the
    rendered time, the group, the message and the keys and values shown
    hold no newline. *)
Theorem Handle_writes_line σ h hd (ctx : Context) (r : slog_Record) :
  wf σ = true ->
  handlers σ !! h = Some hd ->
  (level hd <= Level r)%Z ->
  let out := line_of (timeFormat hd) (group hd) r (shown_attrs σ hd r) in
  (exists res σ',
     Handle h ctx r σ = Some (res, σ')
     /\ trace σ' = trace σ ++ [EvLock h; EvWrite (writer hd) out; EvUnlock h])
  /\ (count_newlines (Time_Format (Time_ r) (timeFormat hd)) = 0 ->
      count_newlines (group hd) = 0 ->
      count_newlines (Message r) = 0 ->
      Forall (fun a => count_newlines (Key a) = 0
                       /\ count_newlines (Value_String (Value a)) = 0)
             (shown_attrs σ hd r) ->
      single_line out).
Proof.
  intros Hwf Hh Hlv out.
  destruct (wf_handler _ _ _ Hwf Hh) as (_ & Hmu & d & Hd).
  split.
  - eexists _, _. split.
    + apply (Handle_admitted σ h hd d ctx r Hh Hmu Hd Hlv).
    + simpl. rewrite Handle_buf_line. reflexivity.
  - intros. now apply line_of_single_line.
Qed.



(** *** Slices under [append] *)

Lemma list_inserts_split {A : Type} (i : nat) (xs l : list A) :
  i + length xs <= length l ->
  list_inserts i xs l = take i l ++ xs ++ drop (i + length xs) l.
Proof.
  intros Hle.
  rewrite <- (take_drop i l) at 1.
  replace i with (length (take i l) + 0) at 1 by (rewrite length_take; lia).
  rewrite list_inserts_app_r. f_equal.
  rewrite <- (take_drop (length xs) (drop i l)) at 1.
  rewrite list_inserts_0_r by (rewrite length_take, length_drop; lia).
  now rewrite drop_drop.
Qed.

Lemma slice_ok_Some arrs (s : slice) (a : nat) :
  slice_ok arrs s = true -> data s = Some a ->
  exists arr, arrs !! a = Some arr /\ len s <= cap s /\ cap s = length arr.
Proof.
  unfold slice_ok. intros Hok Ha. rewrite Ha in Hok.
  destruct (arrs !! a) as [arr|]; [|discriminate].
  apply andb_prop in Hok as [H1 H2].
  apply Nat.leb_le in H1. apply Nat.eqb_eq in H2. eauto.
Qed.

Lemma slice_ok_None arrs (s : slice) :
  slice_ok arrs s = true -> data s = None -> len s = 0 /\ cap s = 0.
Proof.
  unfold slice_ok. intros Hok Ha. rewrite Ha in Hok.
  apply andb_prop in Hok as [H1 H2].
  apply Nat.eqb_eq in H1. apply Nat.eqb_eq in H2. auto.
Qed.

Lemma elems_length arrs (s : slice) :
  slice_ok arrs s = true -> length (elems arrs s) = len s.
Proof.
  intros Hok. unfold elems. destruct (data s) as [a|] eqn:Ha.
  - destruct (slice_ok_Some _ _ _ Hok Ha) as (arr & -> & Hle & Hcap). simpl.
    rewrite length_take. lia.
  - destruct (slice_ok_None _ _ Hok Ha) as [-> _]. reflexivity.
Qed.

(** The slice that [append] returns holds the old elements followed by the
    new ones. *)
Lemma append_elems arrs (s : slice) (xs : list slog_Attr) :
  slice_ok arrs s = true ->
  elems (append arrs s xs).2 (append arrs s xs).1 = elems arrs s ++ xs.
Proof.
  intros Hok. unfold append.
  destruct (Nat.leb_spec (len s + length xs) (cap s)) as [Hfit|Hgrow].
  - destruct (data s) as [a|] eqn:Ha.
    + destruct (slice_ok_Some _ _ _ Hok Ha) as (arr & Harr & Hle & Hcap).
      unfold elems at 1. simpl. rewrite list_lookup_alter_eq, Harr. simpl.
      rewrite list_inserts_split by lia.
      unfold elems. rewrite Ha, Harr. simpl.
      rewrite app_assoc.
      rewrite take_app_length'; [reflexivity|].
      rewrite length_app, length_take. lia.
    + destruct (slice_ok_None _ _ Hok Ha) as [Hl Hc].
      destruct xs; simpl in *; [|lia]. now rewrite app_nil_r.
  - unfold elems at 1. simpl.
    rewrite lookup_app_r, Nat.sub_diag by lia. simpl.
    rewrite app_assoc. apply take_app_length'.
    rewrite length_app, elems_length by exact Hok. reflexivity.
Qed.

(** [append] leaves alone what is seen through a slice of another array,
    or through a slice no longer than the one appended to. *)
Lemma append_frame arrs (s s0 : slice) (xs : list slog_Attr) :
  slice_ok arrs s = true -> slice_ok arrs s0 = true ->
  data s0 <> data s \/ len s0 <= len s ->
  elems (append arrs s xs).2 s0 = elems arrs s0.
Proof.
  intros Hok Hok0 Hsep. unfold append.
  destruct (data s0) as [a0|] eqn:Ha0; [|unfold elems; now rewrite Ha0].
  destruct (slice_ok_Some _ _ _ Hok0 Ha0) as (arr0 & Harr0 & Hle0 & Hcap0).
  destruct (Nat.leb_spec (len s + length xs) (cap s)) as [Hfit|Hgrow].
  - destruct (data s) as [a|] eqn:Ha; [|reflexivity].
    destruct (slice_ok_Some _ _ _ Hok Ha) as (arr & Harr & Hle & Hcap).
    unfold elems. rewrite Ha0. simpl.
    destruct (decide (a = a0)) as [->|Hne].
    + rewrite list_lookup_alter_eq, Harr0. simpl.
      assert (arr = arr0) as -> by congruence.
      destruct Hsep as [Hd|Hlen]; [congruence|].
      rewrite list_inserts_split by lia.
      rewrite take_app_le by (rewrite length_take; lia).
      rewrite take_take. f_equal. lia.
    + now rewrite list_lookup_alter_ne.
  - unfold elems. rewrite Ha0. simpl.
    rewrite lookup_app_l by (eapply lookup_lt_Some; eauto). reflexivity.
Qed.

Lemma append_slice_ok arrs (s : slice) (xs : list slog_Attr) :
  slice_ok arrs s = true ->
  slice_ok (append arrs s xs).2 (append arrs s xs).1 = true.
Proof.
  intros Hok. unfold append.
  destruct (Nat.leb_spec (len s + length xs) (cap s)) as [Hfit|Hgrow].
  - destruct (data s) as [a|] eqn:Ha; [|exact Hok].
    destruct (slice_ok_Some _ _ _ Hok Ha) as (arr & Harr & Hle & Hcap).
    unfold slice_ok. simpl. rewrite list_lookup_alter_eq, Harr. simpl.
    rewrite length_inserts.
    apply andb_true_intro. split; [apply Nat.leb_le | apply Nat.eqb_eq]; lia.
  - unfold slice_ok. simpl.
    rewrite lookup_app_r, Nat.sub_diag by lia. simpl.
    rewrite !length_app, length_replicate, elems_length by exact Hok.
    apply andb_true_intro. split; [apply Nat.leb_le | apply Nat.eqb_eq]; lia.
Qed.

Lemma append_slice_ok_old arrs (s s0 : slice) (xs : list slog_Attr) :
  slice_ok arrs s0 = true -> slice_ok (append arrs s xs).2 s0 = true.
Proof.
  intros Hok0. unfold append.
  destruct (data s0) as [a0|] eqn:Ha0; [|unfold slice_ok in *; now rewrite Ha0 in *].
  destruct (slice_ok_Some _ _ _ Hok0 Ha0) as (arr0 & Harr0 & Hle0 & Hcap0).
  assert (Hgoal : forall arrs' arr',
            arrs' !! a0 = Some arr' -> length arr' = length arr0 ->
            slice_ok arrs' s0 = true).
  { intros arrs' arr' Hl Hlen. unfold slice_ok. rewrite Ha0, Hl.
    apply andb_true_intro. split; [apply Nat.leb_le | apply Nat.eqb_eq]; lia. }
  destruct (Nat.leb_spec (len s + length xs) (cap s)) as [Hfit|Hgrow].
  - destruct (data s) as [a|] eqn:Ha; [|exact Hok0]. simpl.
    destruct (decide (a = a0)) as [->|Hne].
    + eapply Hgoal; [rewrite list_lookup_alter_eq, Harr0; reflexivity|].
      apply length_inserts.
    + eapply Hgoal; [rewrite list_lookup_alter_ne by exact Hne; eauto | reflexivity].
  - simpl. eapply Hgoal; [|reflexivity].
    rewrite lookup_app_l by (eapply lookup_lt_Some; eauto). exact Harr0.
Qed.

(** *** Derived handlers *)

Lemma WithAttrs_Some σ h hd (new : list slog_Attr) :
  handlers σ !! h = Some hd ->
  WithAttrs h new σ
  = Some (length (handlers σ),
          set_handlers
            (handlers σ
             ++ [mkHandler (level hd) (writer hd)
                   (append (arrays σ) (attrs hd) new).1
                   (group hd) (timeFormat hd) (mu hd)])
            (set_arrays (append (arrays σ) (attrs hd) new).2 σ)).
Proof.
  intros Hh. unfold WithAttrs. rewrite Hh. simpl.
  destruct (append (arrays σ) (attrs hd) new). reflexivity.
Qed.

(** The handler returned by [WithAttrs] shows the receiver's attributes
    followed by the new ones, and the receiver shows what it showed. *)
Lemma WithAttrs_chain σ h hd (new : list slog_Attr) :
  wf σ = true ->
  handlers σ !! h = Some hd ->
  exists c σ',
    WithAttrs h new σ = Some (c, σ')
    /\ c = length (handlers σ)
    /\ chain σ' c = Some (elems (arrays σ) (attrs hd) ++ new)
    /\ chain σ' h = chain σ h.
Proof.
  intros Hwf Hh. destruct (wf_handler _ _ _ Hwf Hh) as (Hs & _ & _).
  eexists _, _. split; [apply (WithAttrs_Some _ _ _ _ Hh)|].
  split; [reflexivity|].
  unfold chain. simpl. split.
  - rewrite lookup_app_r, Nat.sub_diag by lia. simpl.
    now rewrite append_elems.
  - rewrite lookup_app_l by (eapply lookup_lt_Some; eauto).
    rewrite Hh. simpl. rewrite append_frame; auto.
Qed.

(** Another handler shows what it showed when its slice lies in another
    array, or is no longer than the receiver's. *)
Lemma WithAttrs_frame σ h hd h0 hd0 (new : list slog_Attr) c σ' :
  wf σ = true ->
  handlers σ !! h = Some hd ->
  handlers σ !! h0 = Some hd0 ->
  data (attrs hd0) <> data (attrs hd) \/ len (attrs hd0) <= len (attrs hd) ->
  WithAttrs h new σ = Some (c, σ') ->
  chain σ' h0 = chain σ h0.
Proof.
  intros Hwf Hh Hh0 Hsep Hc.
  destruct (wf_handler _ _ _ Hwf Hh) as (Hs & _ & _).
  destruct (wf_handler _ _ _ Hwf Hh0) as (Hs0 & _ & _).
  rewrite (WithAttrs_Some _ _ _ _ Hh) in Hc. injection Hc as <- <-.
  unfold chain. simpl.
  rewrite lookup_app_l by (eapply lookup_lt_Some; eauto).
  rewrite Hh0. simpl. now rewrite append_frame.
Qed.

Lemma append_in_place arrs (s : slice) (xs : list slog_Attr) (a : nat) :
  data s = Some a -> len s + length xs <= cap s ->
  append arrs s xs
  = (mkSlice (Some a) (len s + length xs) (cap s),
     alter (list_inserts (len s) xs) a arrs).
Proof.
  intros Ha Hfit. unfold append. rewrite Ha.
  destruct (Nat.leb_spec (len s + length xs) (cap s)); [reflexivity | lia].
Qed.

(** The defect behind C1, in general: when the receiver's slice has spare
    capacity, two calls of [WithAttrs] on it write to the same slot, and
    the handler returned by the first call then shows the attribute given
    to the second. *)
Lemma WithAttrs_siblings_share σ h hd (x y : slog_Attr) c1 σ1 c2 σ2 :
  wf σ = true ->
  handlers σ !! h = Some hd ->
  len (attrs hd) < cap (attrs hd) ->
  WithAttrs h [x] σ = Some (c1, σ1) ->
  WithAttrs h [y] σ1 = Some (c2, σ2) ->
  chain σ1 c1 = Some (elems (arrays σ) (attrs hd) ++ [x])
  /\ chain σ2 c1 = Some (elems (arrays σ) (attrs hd) ++ [y]).
Proof.
  intros Hwf Hh Hspare H1 H2.
  destruct (wf_handler _ _ _ Hwf Hh) as (Hs & _ & _).
  destruct (data (attrs hd)) as [a|] eqn:Ha;
    [|destruct (slice_ok_None _ _ Hs Ha); lia].
  destruct (slice_ok_Some _ _ _ Hs Ha) as (arr & Harr & Hle & Hcap).
  pose proof (append_elems (arrays σ) (attrs hd) [x] Hs) as Ex.
  rewrite (WithAttrs_Some _ _ _ _ Hh) in H1. injection H1 as <- <-.
  assert (Hh1 : handlers
            (set_handlers
               (handlers σ
                ++ [mkHandler (level hd) (writer hd)
                      (append (arrays σ) (attrs hd) [x]).1
                      (group hd) (timeFormat hd) (mu hd)])
               (set_arrays (append (arrays σ) (attrs hd) [x]).2 σ)) !! h
            = Some hd).
  { simpl. rewrite lookup_app_l by (eapply lookup_lt_Some; eauto). exact Hh. }
  rewrite (WithAttrs_Some _ _ _ _ Hh1) in H2. injection H2 as <- <-.
  split.
  - unfold chain. simpl. rewrite lookup_app_r, Nat.sub_diag by lia. simpl.
    now rewrite Ex.
  - unfold chain. simpl.
    rewrite lookup_app_l by (rewrite length_app; simpl; lia).
    rewrite lookup_app_r, Nat.sub_diag by lia. simpl.
    rewrite !(append_in_place _ _ _ a Ha) by (simpl; lia). simpl.
    unfold elems. simpl. rewrite Ha, Harr. simpl.
    rewrite !list_lookup_alter_eq, Harr. simpl.
    rewrite list_insert_insert_eq, insert_take_drop by lia.
    f_equal. rewrite cons_middle, app_assoc.
    apply take_app_length'. rewrite length_app, length_take. simpl. lia.
Qed.

(** The defect behind C2, in general: the mutex of a derived handler is
    another mutex. While the receiver's is held, the derived handler's is
    free. *)
Lemma WithAttrs_own_mutex σ h hd (new : list slog_Attr) c σ' σ1 :
  wf σ = true ->
  handlers σ !! h = Some hd ->
  WithAttrs h new σ = Some (c, σ') ->
  mu_Lock h σ' = Some σ1 ->
  c <> h
  /\ (exists hd1, handlers σ1 !! h = Some hd1 /\ w (mu hd1) = true)
  /\ (exists hdc, handlers σ1 !! c = Some hdc /\ mu hdc = RWMutex_zero).
Proof.
  intros Hwf Hh Hc Hl. destruct (wf_handler _ _ _ Hwf Hh) as (_ & Hmu & _).
  rewrite (WithAttrs_Some _ _ _ _ Hh) in Hc. injection Hc as <- <-.
  pose proof (lookup_lt_Some _ _ _ Hh) as Hlt.
  unfold mu_Lock in Hl. erewrite call_mu_Some in Hl; cycle 1.
  { simpl. rewrite lookup_app_l by exact Hlt. exact Hh. }
  { rewrite Hmu. reflexivity. }
  injection Hl as <-. simpl. split; [lia|]. split.
  - eexists. split; [apply list_lookup_insert_eq; rewrite length_app; lia|].
    reflexivity.
  - eexists. rewrite list_lookup_insert_ne by lia.
    rewrite lookup_app_r, Nat.sub_diag by lia. simpl. split; [reflexivity|].
    exact Hmu.
Qed.

(** *** Well-formedness is kept *)

Lemma handler_ok_mono σ σ' hd :
  handler_ok σ hd = true ->
  slice_ok (arrays σ') (attrs hd) = true ->
  length (dests σ) <= length (dests σ') ->
  handler_ok σ' hd = true.
Proof.
  unfold handler_ok. intros Hok Hs Hlen.
  apply andb_prop in Hok as [Hok Hw]. apply andb_prop in Hok as [_ Hm].
  rewrite Hs, Hm. simpl. apply Nat.ltb_lt in Hw. apply Nat.ltb_lt. lia.
Qed.

Lemma wf_intro σ σ' :
  wf σ = true ->
  (forall s, slice_ok (arrays σ) s = true -> slice_ok (arrays σ') s = true) ->
  length (dests σ) <= length (dests σ') ->
  forallb (handler_ok σ') (handlers σ) = true.
Proof.
  unfold wf. rewrite !forallb_forall. intros Hwf Hs Hlen hd Hin.
  specialize (Hwf hd Hin). eapply handler_ok_mono; eauto.
  apply Hs. unfold handler_ok in Hwf.
  apply andb_prop in Hwf as [Hwf _]. now apply andb_prop in Hwf as [? _].
Qed.




Lemma wf_WithAttrs σ h (new : list slog_Attr) c σ' :
  wf σ = true -> WithAttrs h new σ = Some (c, σ') -> wf σ' = true.
Proof.
  intros Hwf Hc. destruct (handlers σ !! h) as [hd|] eqn:Hh;
    [|unfold WithAttrs in Hc; rewrite Hh in Hc; discriminate].
  pose proof (wf_lookup _ _ _ Hwf Hh) as Hok.
  destruct (wf_handler _ _ _ Hwf Hh) as (Hs & Hmu & _).
  rewrite (WithAttrs_Some _ _ _ _ Hh) in Hc. injection Hc as <- <-.
  unfold wf. simpl. rewrite forallb_app. simpl.
  apply andb_true_intro. split.
  - apply (wf_intro σ); auto. intros s Hs0. now apply append_slice_ok_old.
  - unfold handler_ok in *. simpl.
    apply andb_prop in Hok as [Hok Hw]. apply andb_prop in Hok as [_ Hm].
    rewrite append_slice_ok, Hm, Hw by exact Hs. reflexivity.
Qed.

Lemma wf_WithGroup σ h (name : string) c σ' :
  wf σ = true -> WithGroup h name σ = Some (c, σ') -> wf σ' = true.
Proof.
  intros Hwf Hc. unfold WithGroup in Hc.
  destruct (handlers σ !! h) as [hd|] eqn:Hh; [|discriminate].
  pose proof (wf_lookup _ _ _ Hwf Hh) as Hok.
  simpl in Hc. injection Hc as <- <-.
  unfold wf. simpl. rewrite forallb_app. simpl.
  apply andb_true_intro. split.
  - apply (wf_intro σ); auto.
  - now rewrite andb_true_r.
Qed.

Lemma wf_Handle σ h (ctx : Context) (r : slog_Record) res σ' :
  wf σ = true -> Handle h ctx r σ = Some (res, σ') -> wf σ' = true.
Proof.
  intros Hwf HH. destruct (handlers σ !! h) as [hd|] eqn:Hh;
    [|unfold Handle in HH; rewrite Hh in HH; discriminate].
  destruct (wf_handler _ _ _ Hwf Hh) as (_ & Hmu & d & Hd).
  destruct (Z.lt_ge_cases (Level r) (level hd)) as [Hlt|Hge].
  - rewrite (Handle_dropped _ _ _ _ _ Hh Hlt) in HH. now injection HH as <- <-.
  - rewrite (Handle_admitted σ h hd d ctx r Hh Hmu Hd Hge) in HH.
    injection HH as <- <-. unfold wf. simpl.
    apply (wf_intro σ); auto. simpl. now rewrite length_insert.
Qed.

End Sequential.

(** ** Goroutines on one handler

    When every goroutine calls [Handle] on the same handler, its mutex
    keeps all but one of them out of the section between [Lock] and
    [Unlock]. *)

Section OneHandler.
Context `{RT : GoRuntime} {W : Type} `{WR : Writer W}.
Implicit Types (σ : state W) (g : goroutine) (gs : list goroutine).

Lemma call_mu_inv (op : RWMutex -> option RWMutex) (e : event) (h : nat) σ σ' :
  call_mu op e h σ = Some σ' ->
  exists hd m,
    handlers σ !! h = Some hd /\ op (mu hd) = Some m
    /\ handlers σ' = <[h := set_mu m hd]> (handlers σ).
Proof.
  unfold call_mu. intros Hc.
  destruct (handlers σ !! h) as [hd|] eqn:Hh; [|discriminate]. simpl in Hc.
  destruct (op (mu hd)) as [m|] eqn:Hop; [|discriminate]. simpl in Hc.
  injection Hc as <-. eauto.
Qed.

Lemma call_Write_handlers (dst : nat) (p : string) σ err σ' :
  call_Write dst p σ = Some (err, σ') -> handlers σ' = handlers σ.
Proof.
  unfold call_Write. intros Hc.
  destruct (dests σ !! dst) as [d|]; [|discriminate]. simpl in Hc.
  destruct (Writer_Write d p) as [d' [n e]]. now injection Hc as <- <-.
Qed.

Lemma critical_count_insert gs (i : nat) g g' :
  gs !! i = Some g ->
  critical_count (<[i := g']> gs) + (if in_critical g then 1 else 0)
  = critical_count gs + (if in_critical g' then 1 else 0).
Proof.
  unfold critical_count. revert i.
  induction gs as [|g0 gs IH]; intros [|i] Hi; try discriminate; simpl in *.
  - injection Hi as ->. destruct (in_critical g), (in_critical g'); simpl; lia.
  - specialize (IH i Hi). destruct (in_critical g0); simpl; lia.
Qed.

Lemma on_handler_insert (h : nat) gs (i : nat) g' :
  forallb (on_handler h) gs = true -> on_handler h g' = true ->
  forallb (on_handler h) (<[i := g']> gs) = true.
Proof.
  revert i. induction gs as [|g0 gs IH]; intros i Hall Hg'; [reflexivity|].
  simpl in Hall. apply andb_prop in Hall as [H0 Hall].
  destruct i as [|i]; simpl.
  - now rewrite Hg', Hall.
  - now rewrite H0, IH.
Qed.

Lemma Lock_inv (m m' : RWMutex) :
  Lock m = Some m' -> w m = false /\ readerCount m = 0 /\ m' = mkRWMutex true 0.
Proof.
  unfold Lock. destruct (w m); [discriminate|].
  destruct (readerCount m); [|discriminate]. now intros [= <-].
Qed.

Lemma Unlock_inv (m m' : RWMutex) :
  Unlock m = Some m' -> w m = true /\ m' = mkRWMutex false (readerCount m).
Proof. unfold Unlock. destruct (w m); [|discriminate]. now intros [= <-]. Qed.

(** A step of any goroutine keeps the invariant. *)
Lemma excl_step (h i : nat) (c c' : config W) :
  excl h c -> sched_step i c = Some c' -> excl h c'.
Proof.
  destruct c as [gs σ]. intros [Hall (hd & Hh & Hrc & Hcnt)] Hstep.
  unfold sched_step in Hstep. simpl in *.
  destruct (gs !! i) as [g|] eqn:Hi; [|discriminate]. simpl in Hstep.
  destruct (gstep g σ) as [[g' σ']|] eqn:Hg; [|discriminate].
  simpl in Hstep. injection Hstep as <-.
  assert (Hon : on_handler h g = true).
  { rewrite forallb_forall in Hall. apply Hall.
    apply list_elem_of_In. eapply list_elem_of_lookup_2; eauto. }
  pose proof (critical_count_insert gs i g g' Hi) as Hins.
  assert (Hkeep : handlers σ' = handlers σ -> on_handler h g' = true ->
                  in_critical g' = in_critical g ->
                  excl h (<[i := g']> gs, σ')).
  { intros Hσ Hon' Hcr. split; [now apply on_handler_insert|]. simpl.
    exists hd. rewrite Hσ. repeat split; auto.
    rewrite Hcr in Hins. destruct (in_critical g); lia. }
  destruct g as [h' r|h' buf|h' rest|h' err|res]; simpl in Hon, Hg;
    try (apply Nat.eqb_eq in Hon; subst h').
  - rewrite Hh in Hg. simpl in Hg.
    destruct (Level r <? level hd)%Z; injection Hg as <- <-;
      apply Hkeep; auto; simpl; apply Nat.eqb_refl.
  - destruct (mu_Lock h σ) as [σl|] eqn:Hl; [|discriminate].
    simpl in Hg. injection Hg as <- <-.
    apply call_mu_inv in Hl as (hd0 & m & Hh0 & Hop & Hσ).
    rewrite Hh in Hh0. injection Hh0 as <-.
    apply Lock_inv in Hop as (Hw & _ & ->).
    split; [apply on_handler_insert; auto; simpl; apply Nat.eqb_refl|].
    simpl. exists (set_mu (mkRWMutex true 0) hd). rewrite Hσ.
    split; [apply list_lookup_insert_eq; eapply lookup_lt_Some; eauto|].
    split; [reflexivity|]. simpl in *. rewrite Hw in Hcnt. lia.
  - destruct rest as [|c rest].
    + injection Hg as <- <-. apply Hkeep; auto. simpl. apply Nat.eqb_refl.
    + rewrite Hh in Hg. simpl in Hg.
      destruct (call_Write (writer hd) (String c "") σ) as [[err σw]|] eqn:Hw;
        [|discriminate].
      apply call_Write_handlers in Hw. simpl in Hg.
      destruct err; injection Hg as <- <-;
        apply Hkeep; auto; simpl; apply Nat.eqb_refl.
  - destruct (mu_Unlock h σ) as [σu|] eqn:Hu; [|discriminate].
    simpl in Hg. injection Hg as <- <-.
    apply call_mu_inv in Hu as (hd0 & m & Hh0 & Hop & Hσ).
    rewrite Hh in Hh0. injection Hh0 as <-.
    apply Unlock_inv in Hop as (Hw & ->).
    split; [apply on_handler_insert; auto|].
    simpl. exists (set_mu (mkRWMutex false (readerCount (mu hd))) hd).
    rewrite Hσ.
    split; [apply list_lookup_insert_eq; eapply lookup_lt_Some; eauto|].
    split; [exact Hrc|]. simpl in *. rewrite Hw in Hcnt. lia.
  - discriminate.
Qed.

Lemma excl_run (h : nat) (sched : list nat) (c c' : config W) :
  excl h c -> run sched c = Some c' -> excl h c'.
Proof.
  revert c. induction sched as [|i sched IH]; intros c Hc Hrun; simpl in Hrun.
  - now injection Hrun as <-.
  - destruct (sched_step i c) as [c1|] eqn:Hs; [|discriminate].
    simpl in Hrun. eapply IH; [eapply excl_step; eauto | exact Hrun].
Qed.

(** Mutual exclusion on one handler: however the goroutines are scheduled,
    at most one of them is between [Lock] and [Unlock]. *)
Lemma one_handler_mutual_exclusion (h : nat) hd (sched : list nat)
    (c0 c : config W) :
  forallb (on_handler h) c0.1 = true ->
  critical_count c0.1 = 0 ->
  handlers c0.2 !! h = Some hd ->
  mu hd = RWMutex_zero ->
  run sched c0 = Some c ->
  critical_count c.1 <= 1.
Proof.
  intros Hall H0 Hh Hmu Hrun.
  assert (Hinit : excl h c0).
  { split; [exact Hall|]. exists hd. rewrite Hmu. simpl. auto. }
  destruct (excl_run h sched c0 c Hinit Hrun) as [_ (hd' & _ & _ & Hcnt)].
  rewrite Hcnt. destruct (w (mu hd')); lia.
Qed.
End OneHandler.

(** ** Attributes without a key *)

Section EmptyKey.
Context `{RT : GoRuntime}.

Lemma filter_has_key_drop (l1 l2 : list slog_Attr) (a : slog_Attr) :
  Key a = "" ->
  List.filter has_key (l1 ++ a :: l2) = List.filter has_key (l1 ++ l2).
Proof.
  intros Ha. rewrite !List.filter_app. simpl. unfold has_key at 2.
  rewrite Ha. reflexivity.
Qed.

(** The current [Handle] builds the same line with or without an attribute
    whose key is empty, be it on the record or in the chain. *)
Lemma Handle_buf_skips_empty_key (hd : LogFormatHandler)
    (t : time_Time) (msg : string) (lv : slog_Level)
    (l1 l2 c1 c2 : list slog_Attr) (a : slog_Attr) :
  Key a = "" ->
  Handle_buf hd (c1 ++ a :: c2) (mkRecord t msg lv (l1 ++ a :: l2))
  = Handle_buf hd (c1 ++ c2) (mkRecord t msg lv (l1 ++ l2))
  /\ Handle_buf hd (c1 ++ a :: c2) (mkRecord t msg lv (l1 ++ l2))
     = Handle_buf hd (c1 ++ c2) (mkRecord t msg lv (l1 ++ l2))
  /\ Handle_buf hd (c1 ++ c2) (mkRecord t msg lv (l1 ++ a :: l2))
     = Handle_buf hd (c1 ++ c2) (mkRecord t msg lv (l1 ++ l2)).
Proof.
  intros Ha. rewrite !Handle_buf_line. simpl.
  rewrite !(filter_has_key_drop _ _ a Ha). auto.
Qed.
End EmptyKey.

(** ** The scenarios *)

Section Scenarios.
Import Ref Scenario.

(** The package's test cases (log_test.go). *)
Example test_Info_no_attributes :
  written root w1
  = Some [EvLock 0;
          EvWrite 0 ("2025/01/11 12:00:00 INFO Test message" +:+ newline);
          EvUnlock 0].
Proof. vm_compute. reflexivity. Qed.

Example test_Error_with_attributes :
  let p := NewLogFormatHandler LevelError 0 DefaultTimeFormat w0 in
  (Handle p.1 Background r_error p.2) ≫= (fun q => dests q.2 !! 0)
  = Some (Buffer ("2025/01/11 12:00:00 ERROR Error occurred key=value code=123"
                  +:+ newline)).
Proof. vm_compute. reflexivity. Qed.

Example test_Debug_ignored : Handle root Background r_debug w1 = Some (None, w1).
Proof. vm_compute. reflexivity. Qed.

Example test_Grouped :
  with_group ≫= (fun p => written p.1 p.2)
  = Some [EvLock 1;
          EvWrite 0 ("2025/01/11 12:00:00 INFO [TestGroup] Test message"
                     +:+ newline);
          EvUnlock 1].
Proof. vm_compute. reflexivity. Qed.

Example test_Handler_attributes :
  with_env ≫= (fun p => written p.1 p.2)
  = Some [EvLock 1;
          EvWrite 0 ("2025/01/11 12:00:00 INFO Test message env=production"
                     +:+ newline);
          EvUnlock 1].
Proof. vm_compute. reflexivity. Qed.

(** Levels between the named ones. *)
Example Level_String_offsets :
  Level_String 2%Z = "INFO+2" /\ Level_String (-6)%Z = "DEBUG-2"
  /\ Level_String 12%Z = "ERROR+4" /\ Level_String 4%Z = "WARN".
Proof. vm_compute. auto. Qed.

(** A failing destination: the error of [Write] comes back wrapped. *)
Example failing_destination :
  (Handle 0 Background r_test w_failing) ≫= (fun q => q.1)
  = Some (wrapError "failed to write log: disk full" (errorString "disk full")).
Proof. vm_compute. reflexivity. Qed.

(** Two goroutines that run one after the other leave what two calls of
    [Handle] in a row leave. *)
Example one_after_the_other :
  (c ← two_goroutines; run (replicate 33 0 ++ replicate 48 1) c)
    ≫= (fun c => Some (dests c.2))
  = Some [Buffer (line_one +:+ line_two)]
  /\ ('(child, σ) ← with_env;
      '(_, σ) ← Handle root Background r_one σ;
      '(_, σ) ← Handle child Background r_two σ;
      Some (dests σ))
     = Some [Buffer (line_one +:+ line_two)].
Proof. split; vm_compute; reflexivity. Qed.

(** Two calls on one handler: the second waits at [Lock] until the first
    has released the mutex. *)
Example same_handler_waits :
  run [0; 1; 0; 1] same_handler = None
  /\ is_Some (run ([0; 1; 0] ++ replicate 31 0 ++ [1]) same_handler).
Proof. split; vm_compute; eauto. Qed.

(** *** Instances of the general results *)

Lemma Handle_below_level_witness :
  Handle root Background r_debug w1 = Some (None, w1).
Proof.
  apply (Handle_below_level w1 root
           (mkHandler LevelInfo 0 nil_slice "" DefaultTimeFormat RWMutex_zero)
           Background r_debug).
  - reflexivity.
  - vm_compute. reflexivity.
Defined.


Lemma Handle_writes_line_witness :
  let hd := mkHandler LevelInfo 0 nil_slice "" DefaultTimeFormat RWMutex_zero in
  let out := line_of (timeFormat hd) (group hd) r_error (shown_attrs w1 hd r_error) in
  (exists res σ',
     Handle root Background r_error w1 = Some (res, σ')
     /\ trace σ' = trace w1 ++ [EvLock root; EvWrite (writer hd) out; EvUnlock root])
  /\ (count_newlines (Time_Format (Time_ r_error) (timeFormat hd)) = 0 ->
      count_newlines (group hd) = 0 ->
      count_newlines (Message r_error) = 0 ->
      Forall (fun a => count_newlines (Key a) = 0
                       /\ count_newlines (Value_String (Value a)) = 0)
             (shown_attrs w1 hd r_error) ->
      single_line out).
Proof.
  apply (Handle_writes_line w1 root
           (mkHandler LevelInfo 0 nil_slice "" DefaultTimeFormat RWMutex_zero)
           Background r_error).
  - reflexivity.
  - reflexivity.
  - vm_compute. discriminate.
Defined.


Lemma count_newlines_snoc (body : string) :
  count_newlines (body +:+ newline) = count_newlines body + 1.
Proof. rewrite count_newlines_append. reflexivity. Qed.

(** C4 as stated fails on a record whose message has two lines and whose
    attribute has no key: what [Handle] writes is not the line with all
    attributes shown, and it is not one line. *)
Lemma Handle_line_counterexample :
  exists out res σ',
    Handle root Background r_two_lines w1 = Some (res, σ')
    /\ trace σ' = [EvLock root; EvWrite 0 out; EvUnlock root]
    /\ out <> spec_line DefaultTimeFormat "" r_two_lines []
    /\ ~ single_line out.
Proof.
  eexists _, _, _. split; [vm_compute; reflexivity|].
  split; [reflexivity|]. split.
  - vm_compute. discriminate.
  - intros (body & Hb & Hn).
    apply (f_equal count_newlines) in Hb.
    rewrite count_newlines_snoc, Hn in Hb. vm_compute in Hb. discriminate.
Qed.

(** C1 (defect). [root.WithAttrs(a).WithAttrs(b).WithAttrs(c)] has a slice
    of length 3 and capacity 4. The handler made from it with [x] shows
    a, b, c, x; once a second handler is made from it with [y], the first
    one shows a, b, c, y, and that is what its [Handle] writes. *)
Theorem WithAttrs_later_sibling_overwrites :
  exists h3 σ3 c1 σ4 c2 σ5,
    three = Some (h3, σ3)
    /\ WithAttrs h3 [attr "x" "4"] σ3 = Some (c1, σ4)
    /\ WithAttrs h3 [attr "y" "5"] σ4 = Some (c2, σ5)
    /\ chain σ4 c1
       = Some [attr "a" "1"; attr "b" "2"; attr "c" "3"; attr "x" "4"]
    /\ chain σ5 c1
       = Some [attr "a" "1"; attr "b" "2"; attr "c" "3"; attr "y" "5"]
    /\ written c1 σ4
       = Some [EvLock c1;
               EvWrite 0 ("2025/01/11 12:00:00 INFO Test message a=1 b=2 c=3 x=4"
                          +:+ newline);
               EvUnlock c1]
    /\ written c1 σ5
       = Some [EvLock c1;
               EvWrite 0 ("2025/01/11 12:00:00 INFO Test message a=1 b=2 c=3 y=5"
                          +:+ newline);
               EvUnlock c1].
Proof.
  eexists _, _, _, _, _, _.
  split; [vm_compute; reflexivity|].
  split; [vm_compute; reflexivity|].
  split; [vm_compute; reflexivity|].
  repeat split; vm_compute; reflexivity.
Qed.

(** C2 (defect). A handler made by [WithAttrs] or [WithGroup] has a mutex
    of its own: with the mutex of [root] held, [Handle] on the derived
    handler takes its own mutex and writes to the destination they share.
    The same holds of the earlier definition, which gives the new struct a
    new mutex. *)
Theorem derived_handler_locks_its_own_mutex :
  (exists child σ σl res σ',
     with_env = Some (child, σ)
     /\ child <> root
     /\ mu_Lock root σ = Some σl
     /\ Handle child Background r_test σl = Some (res, σ')
     /\ trace σ'
        = [EvLock root; EvLock child;
           EvWrite 0 ("2025/01/11 12:00:00 INFO Test message env=production"
                      +:+ newline);
           EvUnlock child])
  /\ (exists child σ σl res σ',
        with_group = Some (child, σ)
        /\ child <> root
        /\ mu_Lock root σ = Some σl
        /\ Handle child Background r_test σl = Some (res, σ')
        /\ trace σ'
           = [EvLock root; EvLock child;
              EvWrite 0 ("2025/01/11 12:00:00 INFO [TestGroup] Test message"
                         +:+ newline);
              EvUnlock child])
  /\ (exists child σ σl res σ',
        Legacy.WithAttrs lroot [attr "env" "production"] lw1 = Some (child, σ)
        /\ child <> lroot
        /\ Legacy.mu_Lock lroot σ = Some σl
        /\ Legacy.Handle child Background r_test σl = Some (res, σ')
        /\ trace σ'
           = [EvLock lroot; EvLock child;
              EvWrite 0 ("2025/01/11 12:00:00 INFO Test message env=production"
                         +:+ newline);
              EvUnlock child])
  /\ (exists child σ σl res σ',
        Legacy.WithGroup lroot "TestGroup" lw1 = Some (child, σ)
        /\ child <> lroot
        /\ Legacy.mu_Lock lroot σ = Some σl
        /\ Legacy.Handle child Background r_test σl = Some (res, σ')
        /\ trace σ'
           = [EvLock lroot; EvLock child;
              EvWrite 0 ("2025/01/11 12:00:00 INFO [TestGroup] Test message"
                         +:+ newline);
              EvUnlock child]).
Proof.
  repeat split;
    (eexists _, _, _, _, _;
     split; [vm_compute; reflexivity|];
     split; [vm_compute; discriminate|];
     split; [vm_compute; reflexivity|];
     split; vm_compute; reflexivity).
Qed.

(** C3 (defect). One goroutine calls [Handle] on [root], another on the
    handler derived from it. After both have built their lines and taken
    their (different) mutexes they are in their critical sections at the
    same time, and under the schedule [interleaved] the destination ends
    with the second line inside the first. *)
Theorem concurrent_Handle_interleaves :
  exists c lines locked final,
    two_goroutines = Some c
    /\ run [0; 1] c = Some lines
    /\ lines.1 = [Formatted 0 line_one; Formatted 1 line_two]
    /\ run [0; 1; 0; 1] c = Some locked
    /\ forallb in_critical locked.1 = true
    /\ run interleaved c = Some final
    /\ forallb is_Returned final.1 = true
    /\ dests final.2
       = [Buffer ("2025/" +:+ line_two +:+ "01/11 12:00:00 INFO one" +:+ newline)]
    /\ dests final.2 <> [Buffer (line_one +:+ line_two)]
    /\ dests final.2 <> [Buffer (line_two +:+ line_one)].
Proof.
  eexists _, _, _, _.
  split; [vm_compute; reflexivity|].
  split; [vm_compute; reflexivity|].
  split; [vm_compute; reflexivity|].
  split; [vm_compute; reflexivity|].
  split; [vm_compute; reflexivity|].
  split; [vm_compute; reflexivity|].
  split; [vm_compute; reflexivity|].
  split; [vm_compute; reflexivity|].
  split; vm_compute; discriminate.
Qed.

(** C5 (defect of the earlier definition). The earlier [Handle] shows an
    attribute without a key as [ =value], on the record and in the chain;
    the current [Handle] leaves it out. *)
Theorem Legacy_Handle_shows_empty_key :
  (Legacy.Handle lroot Background r_nokey lw1) ≫= (fun q => dests q.2 !! 0)
  = Some (Buffer ("2025/01/11 12:00:00 INFO msg =v k=w" +:+ newline))
  /\ ('(h, σ) ← Legacy.WithAttrs lroot [attr "" "v"] lw1;
      '(_, σ) ← Legacy.Handle h Background r_test σ;
      dests σ !! 0)
     = Some (Buffer ("2025/01/11 12:00:00 INFO Test message =v" +:+ newline))
  /\ (Handle root Background r_nokey w1) ≫= (fun q => dests q.2 !! 0)
     = Some (Buffer ("2025/01/11 12:00:00 INFO msg k=w" +:+ newline)).
Proof. repeat split; vm_compute; reflexivity. Qed.
End Scenarios.

(* ================================================================== *)
(** * Part III: further properties of the package *)
(* ================================================================== *)

(** ** Derivation and logging, one call at a time *)

Section Derivation.
Context `{RT : GoRuntime} {W : Type} `{WR : Writer W}.
Implicit Types (σ : state W) (hd : LogFormatHandler) (h : nat).

Lemma lookup_snoc_old {A : Type} (l : list A) (x y : A) (i : nat) :
  l !! i = Some y -> (l ++ [x]) !! i = Some y.
Proof. intros Hl. rewrite lookup_app_l by (eapply lookup_lt_Some; eauto). exact Hl. Qed.

Lemma lookup_snoc_new {A : Type} (l : list A) (x : A) :
  (l ++ [x]) !! length l = Some x.
Proof. rewrite lookup_app_r, Nat.sub_diag by lia. reflexivity. Qed.

Lemma WithGroup_Some σ h hd (name : string) :
  handlers σ !! h = Some hd ->
  WithGroup h name σ
  = Some (length (handlers σ),
          set_handlers
            (handlers σ
             ++ [mkHandler (level hd) (writer hd) (attrs hd) name
                   (timeFormat hd) (mu hd)]) σ).
Proof. intros Hh. unfold WithGroup. rewrite Hh. reflexivity. Qed.

(** X1. [WithAttrs] returns a new handler that has the receiver's level,
    destination, group and time format and shows the receiver's attributes
    followed by the new ones; the receiver is the struct it was and shows
    what it showed; no destination is touched and no call is made on a
    mutex or a destination. *)
Theorem WithAttrs_derives σ h hd (new : list slog_Attr) :
  wf σ = true ->
  handlers σ !! h = Some hd ->
  exists c σ' hdc,
    WithAttrs h new σ = Some (c, σ')
    /\ handlers σ !! c = None
    /\ handlers σ' !! c = Some hdc
    /\ level hdc = level hd /\ writer hdc = writer hd
    /\ group hdc = group hd /\ timeFormat hdc = timeFormat hd
    /\ chain σ' c = Some (elems (arrays σ) (attrs hd) ++ new)
    /\ handlers σ' !! h = Some hd
    /\ chain σ' h = chain σ h
    /\ dests σ' = dests σ /\ trace σ' = trace σ.
Proof.
  intros Hwf Hh.
  destruct (WithAttrs_chain σ h hd new Hwf Hh) as (c & σ' & Hc & -> & Hcc & Hch).
  pose proof Hc as Hc'. rewrite (WithAttrs_Some _ _ _ _ Hh) in Hc'.
  injection Hc' as <-.
  eexists _, _, _. split; [exact Hc|].
  split; [apply lookup_ge_None; lia|].
  split; [simpl; apply lookup_snoc_new|].
  repeat (split; [reflexivity|]).
  split; [exact Hcc|].
  split; [simpl; now apply lookup_snoc_old|].
  split; [exact Hch|]. split; reflexivity.
Qed.

(** X2. Deriving in two steps shows the same attributes as deriving in
    one: [h.WithAttrs(xs).WithAttrs(ys)] and [h.WithAttrs(xs ++ ys)] both
    show the attributes of [h], then [xs], then [ys]. *)
Theorem WithAttrs_twice σ h hd (xs ys : list slog_Attr) :
  wf σ = true ->
  handlers σ !! h = Some hd ->
  exists c1 σ1 c2 σ2 c σd,
    WithAttrs h xs σ = Some (c1, σ1)
    /\ WithAttrs c1 ys σ1 = Some (c2, σ2)
    /\ WithAttrs h (xs ++ ys) σ = Some (c, σd)
    /\ chain σ2 c2 = Some (elems (arrays σ) (attrs hd) ++ xs ++ ys)
    /\ chain σd c = chain σ2 c2.
Proof.
  intros Hwf Hh.
  destruct (WithAttrs_chain σ h hd xs Hwf Hh) as (c1 & σ1 & H1 & -> & Hc1 & _).
  pose proof (wf_WithAttrs _ _ _ _ _ Hwf H1) as Hwf1.
  assert (exists hd1, handlers σ1 !! length (handlers σ) = Some hd1
                      /\ elems (arrays σ1) (attrs hd1)
                         = elems (arrays σ) (attrs hd) ++ xs) as (hd1 & Hh1 & He1).
  { unfold chain in Hc1.
    destruct (handlers σ1 !! length (handlers σ)) as [hd1|]; [|discriminate].
    simpl in Hc1. injection Hc1 as He. eauto. }
  destruct (WithAttrs_chain σ1 _ hd1 ys Hwf1 Hh1) as (c2 & σ2 & H2 & _ & Hc2 & _).
  destruct (WithAttrs_chain σ h hd (xs ++ ys) Hwf Hh) as (c & σd & Hd & _ & Hcd & _).
  exists (length (handlers σ)), σ1, c2, σ2, c, σd.
  split; [exact H1|]. split; [exact H2|]. split; [exact Hd|].
  rewrite Hc2, Hcd, He1, <- app_assoc. auto.
Qed.

(** [Handle] on an admitted record in a well-formed world, with all it
    leaves behind. *)
Lemma Handle_effect σ h hd (ctx : Context) (r : slog_Record) :
  wf σ = true ->
  handlers σ !! h = Some hd ->
  (level hd <= Level r)%Z ->
  exists res σ',
    Handle h ctx r σ = Some (res, σ')
    /\ trace σ'
       = trace σ
         ++ [EvLock h;
             EvWrite (writer hd)
               (line_of (timeFormat hd) (group hd) r (shown_attrs σ hd r));
             EvUnlock h]
    /\ handlers σ' = handlers σ /\ arrays σ' = arrays σ
    /\ length (dests σ') = length (dests σ)
    /\ wf σ' = true.
Proof.
  intros Hwf Hh Hlv.
  destruct (wf_handler _ _ _ Hwf Hh) as (_ & Hmu & d & Hd).
  pose proof (Handle_admitted σ h hd d ctx r Hh Hmu Hd Hlv) as HH.
  simpl in HH. eexists _, _. split; [exact HH|].
  split; [simpl; now rewrite Handle_buf_line|].
  split; [reflexivity|]. split; [reflexivity|].
  split; [simpl; apply length_insert|].
  eapply wf_Handle; eauto.
Qed.

Lemma WithGroup_then_Handle σ h hd (name : string) (ctx : Context)
    (r : slog_Record) :
  wf σ = true ->
  handlers σ !! h = Some hd ->
  (level hd <= Level r)%Z ->
  exists c σ' res σ'',
    WithGroup h name σ = Some (c, σ')
    /\ wf σ' = true
    /\ handlers σ' !! c
       = Some (mkHandler (level hd) (writer hd) (attrs hd) name
                 (timeFormat hd) (mu hd))
    /\ arrays σ' = arrays σ /\ trace σ' = trace σ
    /\ handlers σ' !! h = Some hd
    /\ Handle c ctx r σ' = Some (res, σ'')
    /\ trace σ''
       = trace σ
         ++ [EvLock c;
             EvWrite (writer hd)
               (line_of (timeFormat hd) name r (shown_attrs σ hd r));
             EvUnlock c].
Proof.
  intros Hwf Hh Hlv.
  pose proof (WithGroup_Some σ h hd name Hh) as Hg.
  pose proof (wf_WithGroup _ _ _ _ _ Hwf Hg) as Hwf'.
  set (σ' := set_handlers _ σ) in *.
  assert (Hc : handlers σ' !! length (handlers σ)
               = Some (mkHandler (level hd) (writer hd) (attrs hd) name
                         (timeFormat hd) (mu hd))).
  { apply lookup_snoc_new. }
  destruct (Handle_effect σ' _ _ ctx r Hwf' Hc Hlv) as (res & σ'' & HH & Ht & _).
  exists (length (handlers σ)), σ', res, σ''.
  split; [exact Hg|]. split; [exact Hwf'|]. split; [exact Hc|].
  split; [reflexivity|]. split; [reflexivity|].
  split; [simpl; now apply lookup_snoc_old|].
  split; [exact HH|]. exact Ht.
Qed.

(** X3. [WithGroup(name)] returns a handler that writes what the receiver
    would write with [name] as its group: same time format, same
    attributes, the bracket showing [name] (and no bracket when [name] is
    empty). The receiver is left as it was. *)
Theorem WithGroup_replaces_group σ h hd (name : string) (ctx : Context)
    (r : slog_Record) :
  wf σ = true ->
  handlers σ !! h = Some hd ->
  (level hd <= Level r)%Z ->
  exists c σ' res σ'',
    WithGroup h name σ = Some (c, σ')
    /\ handlers σ' !! h = Some hd
    /\ Handle c ctx r σ' = Some (res, σ'')
    /\ trace σ''
       = trace σ
         ++ [EvLock c;
             EvWrite (writer hd)
               (line_of (timeFormat hd) name r (shown_attrs σ hd r));
             EvUnlock c].
Proof.
  intros Hwf Hh Hlv.
  destruct (WithGroup_then_Handle σ h hd name ctx r Hwf Hh Hlv)
    as (c & σ' & res & σ'' & Hg & _ & _ & _ & _ & Hh' & HH & Ht).
  eauto 10.
Qed.

(** X4. Groups do not nest: the handler [h.WithGroup(a).WithGroup(b)]
    writes lines whose bracket shows [b] alone. *)
Theorem WithGroup_last_wins σ h hd (a b : string) (ctx : Context)
    (r : slog_Record) :
  wf σ = true ->
  handlers σ !! h = Some hd ->
  (level hd <= Level r)%Z ->
  exists c1 σ1 c2 σ2 res σ3,
    WithGroup h a σ = Some (c1, σ1)
    /\ WithGroup c1 b σ1 = Some (c2, σ2)
    /\ Handle c2 ctx r σ2 = Some (res, σ3)
    /\ trace σ3
       = trace σ
         ++ [EvLock c2;
             EvWrite (writer hd)
               (line_of (timeFormat hd) b r (shown_attrs σ hd r));
             EvUnlock c2].
Proof.
  intros Hwf Hh Hlv.
  destruct (WithGroup_then_Handle σ h hd a ctx r Hwf Hh Hlv)
    as (c1 & σ1 & _ & _ & Hg1 & Hwf1 & Hc1 & Ha1 & Ht1 & _ & _ & _).
  destruct (WithGroup_then_Handle σ1 c1 _ b ctx r Hwf1 Hc1 Hlv)
    as (c2 & σ2 & res & σ3 & Hg2 & _ & _ & _ & _ & _ & HH & Ht).
  exists c1, σ1, c2, σ2, res, σ3.
  split; [exact Hg1|]. split; [exact Hg2|]. split; [exact HH|].
  rewrite Ht, Ht1. simpl. unfold shown_attrs. simpl. rewrite Ha1. reflexivity.
Qed.

(** X5. Two calls of [Handle] in a row: both return, the mutex of the
    first is released before the second starts (also when the first
    [Write] failed), and the destination is given the first line, then
    the second. [Handle] changes no handler and no attribute. *)
Theorem Handle_then_Handle σ h1 hd1 h2 hd2 (ctx1 ctx2 : Context)
    (r1 r2 : slog_Record) :
  wf σ = true ->
  handlers σ !! h1 = Some hd1 ->
  handlers σ !! h2 = Some hd2 ->
  (level hd1 <= Level r1)%Z ->
  (level hd2 <= Level r2)%Z ->
  exists res1 σ1 res2 σ2,
    Handle h1 ctx1 r1 σ = Some (res1, σ1)
    /\ Handle h2 ctx2 r2 σ1 = Some (res2, σ2)
    /\ handlers σ2 = handlers σ /\ arrays σ2 = arrays σ
    /\ trace σ2
       = trace σ
         ++ [EvLock h1;
             EvWrite (writer hd1)
               (line_of (timeFormat hd1) (group hd1) r1 (shown_attrs σ hd1 r1));
             EvUnlock h1;
             EvLock h2;
             EvWrite (writer hd2)
               (line_of (timeFormat hd2) (group hd2) r2 (shown_attrs σ hd2 r2));
             EvUnlock h2].
Proof.
  intros Hwf H1 H2 Hl1 Hl2.
  destruct (Handle_effect σ h1 hd1 ctx1 r1 Hwf H1 Hl1)
    as (res1 & σ1 & HH1 & Ht1 & Hhs1 & Har1 & _ & Hwf1).
  assert (H2' : handlers σ1 !! h2 = Some hd2) by now rewrite Hhs1.
  destruct (Handle_effect σ1 h2 hd2 ctx2 r2 Hwf1 H2' Hl2)
    as (res2 & σ2 & HH2 & Ht2 & Hhs2 & Har2 & _ & _).
  exists res1, σ1, res2, σ2.
  split; [exact HH1|]. split; [exact HH2|].
  split; [congruence|]. split; [congruence|].
  rewrite Ht2, Ht1, <- app_assoc. unfold shown_attrs. rewrite Har1. reflexivity.
Qed.

(** X6. [Handle] writes exactly when [Enabled] answers true for the level
    of the record: if [Enabled] says false the world is untouched, if it
    says true one line goes to the destination. *)
Theorem Handle_agrees_with_Enabled σ h hd (ctx : Context) (r : slog_Record) :
  wf σ = true ->
  handlers σ !! h = Some hd ->
  exists b σe res σ',
    Enabled h ctx (Level r) σ = Some (b, σe)
    /\ Handle h ctx r σ = Some (res, σ')
    /\ (b = false -> res = None /\ σ' = σ)
    /\ (b = true ->
        trace σ'
        = trace σ
          ++ [EvLock h;
              EvWrite (writer hd)
                (line_of (timeFormat hd) (group hd) r (shown_attrs σ hd r));
              EvUnlock h]).
Proof.
  intros Hwf Hh. destruct (wf_handler _ _ _ Hwf Hh) as (_ & Hmu & _).
  assert (He : Enabled h ctx (Level r) σ
               = Some ((level hd <=? Level r)%Z,
                       mkWorld (arrays σ) (handlers σ) (dests σ)
                         (trace σ ++ [EvRLock h; EvRUnlock h])))
    by (apply Enabled_Some; [exact Hh | now rewrite Hmu]).
  destruct (Z.leb_spec (level hd) (Level r)) as [Hle|Hlt].
  - destruct (Handle_effect σ h hd ctx r Hwf Hh Hle) as (res & σ' & HH & Ht & _).
    eexists true, _, res, σ'. split; [exact He|]. split; [exact HH|].
    split; [discriminate | intros _; exact Ht].
  - eexists false, _, None, σ. split; [exact He|].
    split; [now apply (Handle_dropped σ h hd)|].
    split; [auto | discriminate].
Qed.

Lemma held_mutex_blocks_aux σ h hd (ctx : Context) (r : slog_Record)
    (lv : slog_Level) :
  handlers σ !! h = Some hd ->
  w (mu hd) = true ->
  (level hd <= Level r)%Z ->
  Enabled h ctx lv σ = None /\ Handle h ctx r σ = None.
Proof.
  intros Hh Hw Hlv. split.
  - unfold Enabled, mu_RLock, call_mu. rewrite Hh. simpl.
    unfold RLock. rewrite Hw. reflexivity.
  - unfold Handle. rewrite Hh. simpl.
    destruct (Z.ltb_spec (Level r) (level hd)); [lia|].
    unfold mu_Lock, call_mu. rewrite Hh. simpl.
    unfold Lock. rewrite Hw. reflexivity.
Qed.

(** X7. While a writer holds the handler's mutex, [Enabled] does not
    return, and neither does [Handle] on an admitted record: both wait
    for the mutex. *)
Theorem held_mutex_blocks σ h hd (ctx : Context) (r : slog_Record)
    (lv : slog_Level) :
  handlers σ !! h = Some hd ->
  w (mu hd) = true ->
  (level hd <= Level r)%Z ->
  Enabled h ctx lv σ = None /\ Handle h ctx r σ = None.
Proof. apply held_mutex_blocks_aux. Qed.

(** X8. A handler derived while the receiver's mutex is held starts with a
    held mutex of its own, since [mu: h.mu] copies the value. Releasing
    the receiver's mutex does not release it: [Enabled] and [Handle] on
    the derived handler still wait. *)
Theorem WithAttrs_copies_held_mutex σ h hd (new : list slog_Attr)
    (ctx : Context) (r : slog_Record) (lv : slog_Level) :
  handlers σ !! h = Some hd ->
  w (mu hd) = true ->
  (level hd <= Level r)%Z ->
  exists c σ' σ2 hd2 hdc,
    WithAttrs h new σ = Some (c, σ')
    /\ mu_Unlock h σ' = Some σ2
    /\ handlers σ2 !! h = Some hd2 /\ w (mu hd2) = false
    /\ handlers σ2 !! c = Some hdc /\ w (mu hdc) = true
    /\ Enabled c ctx lv σ2 = None
    /\ Handle c ctx r σ2 = None.
Proof.
  intros Hh Hw Hlv.
  pose proof (lookup_lt_Some _ _ _ Hh) as Hlt.
  set (child := mkHandler (level hd) (writer hd)
                  (append (arrays σ) (attrs hd) new).1
                  (group hd) (timeFormat hd) (mu hd)).
  set (σ' := set_handlers (handlers σ ++ [child])
               (set_arrays (append (arrays σ) (attrs hd) new).2 σ)).
  assert (Hh' : handlers σ' !! h = Some hd) by (simpl; now apply lookup_snoc_old).
  assert (Hu : mu_Unlock h σ'
               = Some (emit (EvUnlock h)
                         (set_handlers
                            (<[h := set_mu (mkRWMutex false (readerCount (mu hd))) hd]>
                               (handlers σ')) σ'))).
  { unfold mu_Unlock. apply call_mu_Some; [exact Hh'|].
    unfold Unlock. now rewrite Hw. }
  assert (Hc : handlers
                 (emit (EvUnlock h)
                    (set_handlers
                       (<[h := set_mu (mkRWMutex false (readerCount (mu hd))) hd]>
                          (handlers σ')) σ')) !! length (handlers σ)
               = Some child).
  { simpl. rewrite list_lookup_insert_ne by lia. apply lookup_snoc_new. }
  eexists _, σ', _, _, child.
  split; [apply (WithAttrs_Some _ _ _ _ Hh)|].
  split; [exact Hu|].
  split; [simpl; apply list_lookup_insert_eq; rewrite length_app; lia|].
  split; [reflexivity|]. split; [exact Hc|]. split; [exact Hw|].
  apply (held_mutex_blocks_aux _ _ child ctx r lv Hc Hw Hlv).
Qed.

Lemma filter_has_key_none (l : list slog_Attr) :
  Forall (fun a => Key a = "") l -> List.filter has_key l = [].
Proof.
  induction 1 as [|a l Ha _ IH]; simpl; [reflexivity|].
  unfold has_key at 1. rewrite Ha. exact IH.
Qed.

(** X9. Attributes without a key are kept in the chain by [WithAttrs] and
    left out only when a line is written: a handler derived with nothing
    but such attributes writes the very line the receiver would write. *)
Theorem WithAttrs_empty_keys_not_shown σ h hd (new : list slog_Attr)
    (ctx : Context) (r : slog_Record) :
  wf σ = true ->
  handlers σ !! h = Some hd ->
  (level hd <= Level r)%Z ->
  Forall (fun a => Key a = "") new ->
  exists c σ' res σ'',
    WithAttrs h new σ = Some (c, σ')
    /\ chain σ' c = Some (elems (arrays σ) (attrs hd) ++ new)
    /\ Handle c ctx r σ' = Some (res, σ'')
    /\ trace σ''
       = trace σ
         ++ [EvLock c;
             EvWrite (writer hd)
               (line_of (timeFormat hd) (group hd) r (shown_attrs σ hd r));
             EvUnlock c].
Proof.
  intros Hwf Hh Hlv Hnew.
  destruct (WithAttrs_chain σ h hd new Hwf Hh) as (c & σ' & Hc & -> & Hcc & _).
  pose proof (wf_WithAttrs _ _ _ _ _ Hwf Hc) as Hwf'.
  pose proof Hc as Hc'. rewrite (WithAttrs_Some _ _ _ _ Hh) in Hc'.
  injection Hc' as <-.
  set (σ' := set_handlers _ _) in *.
  assert (Hl : handlers σ' !! length (handlers σ) = Some
                 (mkHandler (level hd) (writer hd)
                    (append (arrays σ) (attrs hd) new).1
                    (group hd) (timeFormat hd) (mu hd)))
    by apply lookup_snoc_new.
  destruct (Handle_effect σ' _ _ ctx r Hwf' Hl Hlv) as (res & σ'' & HH & Ht & _).
  exists (length (handlers σ)), σ', res, σ''.
  split; [exact Hc|]. split; [exact Hcc|]. split; [exact HH|].
  rewrite Ht. simpl. unfold shown_attrs. simpl.
  rewrite append_elems by (now destruct (wf_handler _ _ _ Hwf Hh)).
  rewrite List.filter_app, (filter_has_key_none new Hnew), app_nil_r.
  reflexivity.
Qed.

(** X10. Where the receiver's slice has spare capacity, two handlers
    derived from it one after the other share a slot of its array: the
    first shows the receiver's attributes and its own [x] until the second
    is derived, and the receiver's attributes and [y] afterwards. *)
Theorem WithAttrs_spare_capacity_shared σ h hd (x y : slog_Attr) c1 σ1 c2 σ2 :
  wf σ = true ->
  handlers σ !! h = Some hd ->
  len (attrs hd) < cap (attrs hd) ->
  WithAttrs h [x] σ = Some (c1, σ1) ->
  WithAttrs h [y] σ1 = Some (c2, σ2) ->
  chain σ1 c1 = Some (elems (arrays σ) (attrs hd) ++ [x])
  /\ chain σ2 c1 = Some (elems (arrays σ) (attrs hd) ++ [y])
  /\ chain σ2 c2 = Some (elems (arrays σ) (attrs hd) ++ [y])
  /\ chain σ2 h = chain σ h.
Proof.
  intros Hwf Hh Hspare H1 H2.
  destruct (WithAttrs_siblings_share σ h hd x y c1 σ1 c2 σ2 Hwf Hh Hspare H1 H2)
    as [Ha Hb].
  split; [exact Ha|]. split; [exact Hb|].
  pose proof (wf_WithAttrs _ _ _ _ _ Hwf H1) as Hwf1.
  destruct (WithAttrs_chain σ h hd [x] Hwf Hh) as (c1' & σ1' & H1' & _ & _ & Hp1).
  rewrite H1 in H1'. injection H1' as <- <-.
  assert (Hh1 : handlers σ1 !! h = Some hd).
  { rewrite (WithAttrs_Some _ _ _ _ Hh) in H1. injection H1 as <- <-.
    simpl. now apply lookup_snoc_old. }
  destruct (WithAttrs_chain σ1 h hd [y] Hwf1 Hh1) as (c2' & σ2' & H2' & _ & Hc2 & Hp2).
  rewrite H2 in H2'. injection H2' as <- <-.
  assert (He : elems (arrays σ1) (attrs hd) = elems (arrays σ) (attrs hd)).
  { unfold chain in Hp1. rewrite Hh1, Hh in Hp1. simpl in Hp1. congruence. }
  split; [now rewrite Hc2, He | congruence].
Qed.

(** X11. Where the receiver's slice is full (its length is its capacity,
    as for every handler made by [NewLogFormatHandler]), [WithAttrs] with
    at least one attribute allocates: a handler derived from it keeps
    showing its own attributes when another is derived later. *)
Theorem WithAttrs_full_slice_independent σ h hd (xs ys : list slog_Attr)
    c1 σ1 c2 σ2 :
  wf σ = true ->
  handlers σ !! h = Some hd ->
  len (attrs hd) = cap (attrs hd) ->
  xs <> [] ->
  WithAttrs h xs σ = Some (c1, σ1) ->
  WithAttrs h ys σ1 = Some (c2, σ2) ->
  chain σ1 c1 = Some (elems (arrays σ) (attrs hd) ++ xs)
  /\ chain σ2 c1 = Some (elems (arrays σ) (attrs hd) ++ xs)
  /\ chain σ2 c2 = Some (elems (arrays σ) (attrs hd) ++ ys).
Proof.
  intros Hwf Hh Hfull Hxs H1 H2.
  destruct (wf_handler _ _ _ Hwf Hh) as (Hs & _ & _).
  pose proof (wf_WithAttrs _ _ _ _ _ Hwf H1) as Hwf1.
  destruct (WithAttrs_chain σ h hd xs Hwf Hh) as (c1' & σ1' & H1' & _ & Hc1 & Hp1).
  rewrite H1 in H1'. injection H1' as <- <-.
  pose proof H1 as H1''. rewrite (WithAttrs_Some _ _ _ _ Hh) in H1''.
  injection H1'' as Hc1eq Hσ1eq.
  assert (Hh1 : handlers σ1 !! h = Some hd)
    by (rewrite <- Hσ1eq; simpl; now apply lookup_snoc_old).
  assert (Hl1 : handlers σ1 !! c1
                = Some (mkHandler (level hd) (writer hd)
                          (append (arrays σ) (attrs hd) xs).1
                          (group hd) (timeFormat hd) (mu hd)))
    by (rewrite <- Hσ1eq, <- Hc1eq; simpl; apply lookup_snoc_new).
  destruct (WithAttrs_chain σ1 h hd ys Hwf1 Hh1) as (c2' & σ2' & H2' & _ & Hc2 & _).
  rewrite H2 in H2'. injection H2' as <- <-.
  assert (He : elems (arrays σ1) (attrs hd) = elems (arrays σ) (attrs hd)).
  { unfold chain in Hp1. rewrite Hh1, Hh in Hp1. simpl in Hp1. congruence. }
  split; [exact Hc1|]. split; [|now rewrite Hc2, He].
  rewrite <- Hc1.
  apply (WithAttrs_frame σ1 h hd c1 _ ys c2 σ2 Hwf1 Hh1 Hl1); [|exact H2].
  left. simpl. unfold append.
  assert (Hlen : length xs <> 0) by (destruct xs; simpl; [congruence | lia]).
  destruct (Nat.leb_spec (len (attrs hd) + length xs) (cap (attrs hd))); [lia|].
  simpl. destruct (data (attrs hd)) as [a|] eqn:Ha; [|discriminate].
  destruct (slice_ok_Some _ _ _ Hs Ha) as (arr & Harr & _).
  apply lookup_lt_Some in Harr. intros [= Heq]. lia.
Qed.

End Derivation.

(** ** The earlier definition *)

Section LegacyFacts.
Context `{RT : GoRuntime} {W : Type} `{WR : Writer W}.
Implicit Types (σ : Legacy.state W) (hd : Legacy.LogFormatHandler) (h : nat).

Lemma Legacy_call_mu_Some (op : Mutex -> option Mutex) (e : event) h σ hd m :
  handlers σ !! h = Some hd -> op (Legacy.mu hd) = Some m ->
  Legacy.call_mu op e h σ
  = Some (emit e (set_handlers (<[h := Legacy.set_mu m hd]> (handlers σ)) σ)).
Proof.
  intros Hh Hop. unfold Legacy.call_mu. rewrite Hh. simpl. now rewrite Hop.
Qed.

Lemma Legacy_call_Write_Some (dst : nat) (p : string) σ (d : W) :
  dests σ !! dst = Some d ->
  call_Write dst p σ
  = Some ((Writer_Write d p).2.2,
          emit (EvWrite dst p)
            (set_dests (<[dst := (Writer_Write d p).1]> (dests σ)) σ)).
Proof.
  intros Hd. unfold call_Write. rewrite Hd. simpl.
  destruct (Writer_Write d p) as [d' [n err]]. reflexivity.
Qed.

Lemma Legacy_Handle_admitted σ h hd (d : W) (ctx : Context) (r : slog_Record) :
  handlers σ !! h = Some hd ->
  locked (Legacy.mu hd) = false ->
  dests σ !! Legacy.writer hd = Some d ->
  (Legacy.level hd <= Level r)%Z ->
  let buf := Legacy.Handle_buf hd (elems (arrays σ) (Legacy.attrs hd)) r in
  Legacy.Handle h ctx r σ
  = Some (wrap_write_error (Writer_Write d buf).2.2,
          mkWorld (arrays σ) (handlers σ)
            (<[Legacy.writer hd := (Writer_Write d buf).1]> (dests σ))
            (trace σ ++ [EvLock h; EvWrite (Legacy.writer hd) buf; EvUnlock h])).
Proof.
  intros Hh Hmu Hd Hlv buf. unfold Legacy.Handle. rewrite Hh. simpl.
  destruct (Z.ltb_spec (Level r) (Legacy.level hd)) as [Hlt|_]; [lia|].
  fold buf. unfold Legacy.mu_Lock.
  erewrite Legacy_call_mu_Some
    by (eauto; unfold Mutex_Lock; rewrite Hmu; reflexivity).
  simpl.
  erewrite Legacy_call_Write_Some by (simpl; eauto). simpl.
  unfold Legacy.mu_Unlock.
  erewrite Legacy_call_mu_Some; cycle 1.
  { simpl. apply list_lookup_insert_eq. eapply lookup_lt_Some; eauto. }
  { simpl. reflexivity. }
  simpl. unfold emit, set_handlers, set_dests, wrap_write_error. simpl.
  rewrite list_insert_insert_eq.
  replace (Legacy.set_mu _ (Legacy.set_mu _ hd)) with hd
    by (destruct hd as [? ? ? ? []]; simpl in *; subst; reflexivity).
  rewrite list_insert_id by exact Hh.
  rewrite <- !app_assoc. simpl.
  destruct ((Writer_Write d _).2.2); reflexivity.
Qed.

(** X13. The earlier [Handle]: a record below the level leaves the world
    untouched; an admitted one is written once, under the handler's own
    mutex, as the time in the fixed layout [2006/01/02 15:04:05], the
    level name, the group in brackets when there is one, the message and
    every attribute of the record and of the chain, those without a key
    included; the result is the wrapped error of [Write], if any. *)
Theorem Legacy_Handle_spec σ h hd (d : W) (ctx : Context) (r : slog_Record) :
  handlers σ !! h = Some hd ->
  locked (Legacy.mu hd) = false ->
  dests σ !! Legacy.writer hd = Some d ->
  let out := spec_line "2006/01/02 15:04:05" (Legacy.group hd) r
               (elems (arrays σ) (Legacy.attrs hd)) in
  Legacy.Handle h ctx r σ
  = if (Level r <? Legacy.level hd)%Z then Some (None, σ)
    else Some (wrap_write_error (Writer_Write d out).2.2,
               mkWorld (arrays σ) (handlers σ)
                 (<[Legacy.writer hd := (Writer_Write d out).1]> (dests σ))
                 (trace σ ++ [EvLock h; EvWrite (Legacy.writer hd) out;
                              EvUnlock h])).
Proof.
  intros Hh Hmu Hd out.
  destruct (Z.ltb_spec (Level r) (Legacy.level hd)) as [Hlt|Hge].
  - unfold Legacy.Handle. rewrite Hh. simpl.
    destruct (Z.ltb_spec (Level r) (Legacy.level hd)); [reflexivity | lia].
  - rewrite (Legacy_Handle_admitted σ h hd d ctx r Hh Hmu Hd Hge).
    simpl. rewrite Legacy_Handle_buf_line. reflexivity.
Qed.

(** X14. The two definitions build the same line for handlers with the
    same group when the current one uses the default time format and no
    attribute, of the record or of the chain, has an empty key. *)
Theorem Handle_buf_agrees_with_Legacy (hd : LogFormatHandler)
    (lhd : Legacy.LogFormatHandler) (hattrs : list slog_Attr)
    (r : slog_Record) :
  timeFormat hd = DefaultTimeFormat ->
  Legacy.group lhd = group hd ->
  Forall (fun a => Key a <> "") (Record_attrs r) ->
  Forall (fun a => Key a <> "") hattrs ->
  Handle_buf hd hattrs r = Legacy.Handle_buf lhd hattrs r.
Proof.
  intros Htf Hg Hr Hc.
  rewrite Handle_buf_line, Legacy_Handle_buf_line, Htf, Hg.
  unfold spec_line, DefaultTimeFormat.
  assert (Hall : forall l, Forall (fun a => Key a <> "") l ->
                           List.filter has_key l = l).
  { induction 1 as [|a l Ha _ IH]; simpl; [reflexivity|].
    unfold has_key at 1. destruct (String.eqb_spec (Key a) ""); [contradiction|].
    simpl. now rewrite IH. }
  now rewrite (Hall _ Hr), (Hall _ Hc).
Qed.

(** X15. The earlier [WithAttrs] gives the new handler a mutex of its own
    that is free whatever the state of the receiver's: the new handler
    shows the receiver's attributes followed by the new ones, and [Handle]
    on it writes even while the receiver's mutex is held. *)
Theorem Legacy_WithAttrs_fresh_mutex σ h hd (d : W) (new : list slog_Attr)
    (ctx : Context) (r : slog_Record) :
  handlers σ !! h = Some hd ->
  slice_ok (arrays σ) (Legacy.attrs hd) = true ->
  dests σ !! Legacy.writer hd = Some d ->
  (Legacy.level hd <= Level r)%Z ->
  exists c σ' hdc res σ'',
    Legacy.WithAttrs h new σ = Some (c, σ')
    /\ handlers σ' !! h = Some hd
    /\ handlers σ' !! c = Some hdc
    /\ Legacy.mu hdc = Mutex_zero
    /\ elems (arrays σ') (Legacy.attrs hdc)
       = elems (arrays σ) (Legacy.attrs hd) ++ new
    /\ Legacy.Handle c ctx r σ' = Some (res, σ'')
    /\ trace σ''
       = trace σ
         ++ [EvLock c;
             EvWrite (Legacy.writer hd)
               (spec_line "2006/01/02 15:04:05" (Legacy.group hd) r
                  (elems (arrays σ) (Legacy.attrs hd) ++ new));
             EvUnlock c].
Proof.
  intros Hh Hs Hd Hlv.
  set (child := Legacy.mkHandler (Legacy.level hd) (Legacy.writer hd)
                  (append (arrays σ) (Legacy.attrs hd) new).1
                  (Legacy.group hd) Mutex_zero).
  set (σ' := set_handlers (handlers σ ++ [child])
               (set_arrays (append (arrays σ) (Legacy.attrs hd) new).2 σ)).
  assert (Hw : Legacy.WithAttrs h new σ = Some (length (handlers σ), σ')).
  { unfold Legacy.WithAttrs. rewrite Hh. simpl.
    subst σ' child. destruct (append (arrays σ) (Legacy.attrs hd) new).
    reflexivity. }
  assert (Hc : handlers σ' !! length (handlers σ) = Some child)
    by (simpl; apply lookup_snoc_new).
  assert (He : elems (arrays σ') (Legacy.attrs child)
               = elems (arrays σ) (Legacy.attrs hd) ++ new)
    by (simpl; now apply append_elems).
  pose proof (Legacy_Handle_admitted σ' _ child d ctx r Hc eq_refl Hd Hlv) as HH.
  simpl in HH.
  eexists _, σ', child, _, _.
  split; [exact Hw|].
  split; [simpl; now apply lookup_snoc_old|].
  split; [exact Hc|]. split; [reflexivity|]. split; [exact He|].
  split; [exact HH|]. simpl.
  rewrite Legacy_Handle_buf_line. simpl.
  change (elems (append (arrays σ) (Legacy.attrs hd) new).2
            (append (arrays σ) (Legacy.attrs hd) new).1)
    with (elems (arrays σ') (Legacy.attrs child)).
  now rewrite He.
Qed.

(** X16. The earlier [Enabled] makes no call on the mutex: it answers,
    with the world untouched, also while the mutex is held, where the
    earlier [Handle] on an admitted record waits. *)
Theorem Legacy_Enabled_never_waits σ h hd (ctx : Context) (r : slog_Record)
    (lv : slog_Level) :
  handlers σ !! h = Some hd ->
  locked (Legacy.mu hd) = true ->
  (Legacy.level hd <= Level r)%Z ->
  (exists b, Legacy.Enabled h ctx lv σ = Some (b, σ)
             /\ (b = true <-> (lv >= Legacy.level hd)%Z))
  /\ Legacy.Handle h ctx r σ = None.
Proof.
  intros Hh Hl Hlv. split.
  - eexists. unfold Legacy.Enabled. rewrite Hh. simpl.
    split; [reflexivity|]. rewrite Z.leb_le. lia.
  - unfold Legacy.Handle. rewrite Hh. simpl.
    destruct (Z.ltb_spec (Level r) (Legacy.level hd)); [lia|].
    unfold Legacy.mu_Lock, Legacy.call_mu. rewrite Hh. simpl.
    unfold Mutex_Lock. rewrite Hl. reflexivity.
Qed.
End LegacyFacts.

(** ** Goroutines on one handler: the lines are written whole *)

Lemma join_app (a b : list string) : join (a ++ b) = join a +:+ join b.
Proof.
  induction a as [|x a IH]; simpl; [reflexivity|].
  now rewrite IH, append_assoc.
Qed.

Lemma written_bytes_snoc (tr : list event) (e : event) :
  written_bytes (tr ++ [e]) = written_bytes tr +:+ join (payload e).
Proof.
  unfold written_bytes. rewrite flat_map_app, join_app. simpl.
  now rewrite app_nil_r.
Qed.

Lemma flat_map_insert {A B : Type} (f : A -> list B) (l : list A) (i : nat)
    (x y : A) :
  l !! i = Some x ->
  exists l1 l2,
    flat_map f l = l1 ++ f x ++ l2
    /\ flat_map f (<[i := y]> l) = l1 ++ f y ++ l2.
Proof.
  revert i. induction l as [|a l IH]; intros [|i] Hi; try discriminate.
  - simpl in Hi. injection Hi as ->. exists [], (flat_map f l). auto.
  - simpl in Hi. destruct (IH i Hi) as (l1 & l2 & E1 & E2).
    exists (f a ++ l1), l2. simpl. rewrite E1, E2, <- !app_assoc. auto.
Qed.

Section Serialisation.
Context `{RT : GoRuntime} {W : Type} `{WR : Writer W}.
Implicit Types (σ : state W) (g : goroutine) (gs : list goroutine).

Lemma remaining_le_critical gs :
  length (flat_map remaining gs) <= critical_count gs.
Proof.
  unfold critical_count. induction gs as [|g gs IH]; simpl; [lia|].
  rewrite length_app. destruct g; simpl; lia.
Qed.

Lemma excl_critical_le_1 (h : nat) (c : config W) :
  excl h c -> critical_count c.1 <= 1.
Proof.
  intros [_ (hd & _ & _ & Hc)]. rewrite Hc. destruct (w (mu hd)); lia.
Qed.

Lemma call_mu_effect (op : RWMutex -> option RWMutex) (e : event) (h : nat)
    σ σ' :
  call_mu op e h σ = Some σ' ->
  arrays σ' = arrays σ /\ dests σ' = dests σ /\ trace σ' = trace σ ++ [e].
Proof.
  unfold call_mu. intros Hc.
  destruct (handlers σ !! h) as [hd|]; [|discriminate]. simpl in Hc.
  destruct (op (mu hd)) as [m|]; [|discriminate]. simpl in Hc.
  injection Hc as <-. auto.
Qed.

Lemma call_Write_effect (dst : nat) (p : string) σ err σ' :
  call_Write dst p σ = Some (err, σ') ->
  exists d, dests σ !! dst = Some d
            /\ err = (Writer_Write d p).2.2
            /\ arrays σ' = arrays σ /\ handlers σ' = handlers σ
            /\ dests σ' = <[dst := (Writer_Write d p).1]> (dests σ)
            /\ trace σ' = trace σ ++ [EvWrite dst p].
Proof.
  unfold call_Write. intros Hc.
  destruct (dests σ !! dst) as [d|]; [|discriminate]. simpl in Hc.
  exists d. destruct (Writer_Write d p) as [d' [n e]].
  injection Hc as <- <-. simpl. auto 10.
Qed.

Lemma drop_snoc_le {A : Type} (n : nat) (l : list A) (x : A) :
  n <= length l -> drop n (l ++ [x]) = drop n l ++ [x].
Proof.
  intros Hn. rewrite drop_app.
  replace (n - length l) with 0 by lia. reflexivity.
Qed.

(** Two list facts for the one goroutine in its critical section. *)
Lemma singleton_split {A : Type} (l1 l2 : list A) (x : A) (l : list A) :
  l = l1 ++ [x] ++ l2 -> length l <= 1 -> l1 = [] /\ l2 = [].
Proof.
  intros -> Hl. rewrite !length_app in Hl. simpl in Hl.
  destruct l1, l2; simpl in *; auto; lia.
Qed.

(** A step of any goroutine keeps the invariant, when [Write] never
    fails. *)
Lemma ser_step (h : nat) hd0 (arrs0 : arrays_t) (n0 : nat) (L0 : list string)
    (i : nat) (c c' : config W) :
  never_fails ->
  ser_inv h hd0 arrs0 n0 L0 c -> sched_step i c = Some c' ->
  ser_inv h hd0 arrs0 n0 L0 c'.
Proof.
  intros Hok (Hex & Har & (m & Hm) & Hn & done & pre & Hwr & Hpre & Hperm) Hstep.
  pose proof (excl_step h i c c' Hex Hstep) as Hex'.
  pose proof (excl_critical_le_1 h c Hex) as Hc1.
  pose proof (remaining_le_critical c.1) as Hrc.
  split; [exact Hex'|].
  destruct Hex as [Hall (hd & Hh & Hrcnt & Hcnt)].
  destruct c as [gs σ]. cbn [fst snd] in *.
  rewrite Hm in Hh. injection Hh as <-.
  unfold sched_step in Hstep. cbn [fst snd] in Hstep.
  destruct (gs !! i) as [g|] eqn:Hi; [|discriminate]. simpl in Hstep.
  destruct (gstep g σ) as [[g' σ']|] eqn:Hg; [|discriminate].
  simpl in Hstep. injection Hstep as <-. cbn [fst snd].
  assert (Hon : on_handler h g = true).
  { rewrite forallb_forall in Hall. apply Hall.
    apply list_elem_of_In. eapply list_elem_of_lookup_2; eauto. }
  destruct (flat_map_insert remaining gs i g g' Hi) as (r1 & r2 & Er & Er').
  destruct (flat_map_insert (pending hd0 arrs0) gs i g g' Hi)
    as (p1 & p2 & Ep & Ep').
  rewrite Er in Hperm, Hpre, Hrc. rewrite Ep in Hperm.
  rewrite Er', Ep'.
  destruct g as [h' r|h' buf|h' rest|h' err|res]; simpl in Hon, Hg;
    try (apply Nat.eqb_eq in Hon; subst h').
  - (* Entry *)
    rewrite Hm in Hg. simpl in Hg, Hperm.
    assert (Hσ : σ' = σ /\ remaining g' = []
                 /\ pending hd0 arrs0 g' = pending hd0 arrs0 (Entry h r)).
    { simpl. destruct (Level r <? level hd0)%Z; injection Hg as <- <-;
        simpl; rewrite ?Har; auto. }
    destruct Hσ as (-> & Hr' & Hp'). rewrite Hr', Hp'.
    split; [exact Har|]. split; [eauto|]. split; [exact Hn|].
    exists done, pre. auto.
  - (* Formatted: the lock is taken *)
    destruct (mu_Lock h σ) as [σl|] eqn:Hl; [|discriminate].
    simpl in Hg. injection Hg as <- <-.
    pose proof (call_mu_effect _ _ _ _ _ Hl) as (Ha' & _ & Ht').
    apply call_mu_inv in Hl as (hd1 & m1 & Hh1 & Hop & Hσ).
    rewrite Hm in Hh1. injection Hh1 as <-.
    apply Lock_inv in Hop as (Hw & _ & ->). simpl in Hw, Hcnt.
    rewrite Hw in Hcnt. simpl in Hrc, Hperm, Hpre.
    assert (Hr0 : r1 ++ r2 = []) by (destruct (r1 ++ r2); simpl in *; [auto | lia]).
    apply app_eq_nil in Hr0 as [-> ->]. simpl in *.
    specialize (Hpre eq_refl). subst pre.
    split; [congruence|]. split.
    { exists (mkRWMutex true 0). rewrite Hσ.
      apply list_lookup_insert_eq. eapply lookup_lt_Some; eauto. }
    split; [rewrite Ht', length_app; lia|].
    exists done, "". rewrite Ht', drop_snoc_le, written_bytes_snoc by exact Hn.
    simpl. rewrite append_empty_r.
    split; [exact Hwr|]. split; [auto|].
    rewrite <- Hperm.
    apply Permutation_app_head. simpl.
    apply Permutation_middle.
  - (* Writing *)
    assert (Hlen : length (r1 ++ [rest] ++ r2) <= 1) by (simpl in *; lia).
    destruct (singleton_split r1 r2 rest _ eq_refl Hlen) as [-> ->].
    simpl in Hperm, Hpre.
    destruct rest as [|ch rest].
    + injection Hg as <- <-. simpl.
      split; [exact Har|]. split; [eauto|]. split; [exact Hn|].
      exists (done ++ [pre]), "".
      split; [rewrite join_app; simpl; now rewrite !append_empty_r|].
      split; [auto|].
      rewrite <- Hperm, append_empty_r, <- app_assoc. reflexivity.
    + rewrite Hm in Hg. simpl in Hg.
      destruct (call_Write (writer hd0) (String ch "") σ) as [[err σw]|] eqn:Hw;
        [|discriminate].
      apply call_Write_effect in Hw as (d & Hd & He & Ha' & Hh' & _ & Ht').
      rewrite Hok in He. subst err. simpl in Hg. injection Hg as <- <-.
      simpl.
      split; [congruence|]. split; [rewrite Hh'; eauto|].
      split; [rewrite Ht', length_app; lia|].
      exists done, (pre +:+ String ch "").
      rewrite Ht', drop_snoc_le, written_bytes_snoc by exact Hn. simpl.
      split; [rewrite Hwr, append_assoc; reflexivity|].
      split; [discriminate|].
      rewrite <- Hperm, append_assoc. reflexivity.
  - (* Written: the lock is released *)
    destruct (mu_Unlock h σ) as [σu|] eqn:Hu; [|discriminate].
    simpl in Hg. injection Hg as <- <-.
    pose proof (call_mu_effect _ _ _ _ _ Hu) as (Ha' & _ & Ht').
    apply call_mu_inv in Hu as (hd1 & m1 & Hh1 & Hop & Hσ).
    rewrite Hm in Hh1. injection Hh1 as <-. simpl in *.
    split; [congruence|]. split.
    { exists m1. rewrite Hσ.
      apply list_lookup_insert_eq. eapply lookup_lt_Some; eauto. }
    split; [rewrite Ht', length_app; lia|].
    exists done, pre.
    rewrite Ht', drop_snoc_le, written_bytes_snoc by exact Hn. simpl.
    rewrite append_empty_r. auto.
  - discriminate.
Qed.

Lemma ser_run (h : nat) hd0 (arrs0 : arrays_t) (n0 : nat) (L0 : list string)
    (sched : list nat) (c c' : config W) :
  never_fails ->
  ser_inv h hd0 arrs0 n0 L0 c -> run sched c = Some c' ->
  ser_inv h hd0 arrs0 n0 L0 c'.
Proof.
  intros Hok. revert c.
  induction sched as [|i sched IH]; intros c Hc Hrun; simpl in Hrun.
  - now injection Hrun as <-.
  - destruct (sched_step i c) as [c1|] eqn:Hs; [|discriminate].
    simpl in Hrun. eapply IH; [eapply ser_step; eauto | exact Hrun].
Qed.

Lemma entries_on_handler (h : nat) (rs : list slog_Record) :
  forallb (on_handler h) (map (Entry h) rs) = true
  /\ critical_count (map (Entry h) rs) = 0
  /\ flat_map remaining (map (Entry h) rs) = [].
Proof.
  unfold critical_count.
  induction rs as [|r rs (IH1 & IH2 & IH3)]; simpl; [auto|].
  rewrite Nat.eqb_refl, IH1, IH2, IH3. auto.
Qed.

Lemma entries_pending (h : nat) hd0 (arrs0 : arrays_t) (rs : list slog_Record) :
  flat_map (pending hd0 arrs0) (map (Entry h) rs) = admitted_lines hd0 arrs0 rs.
Proof.
  unfold admitted_lines. induction rs as [|r rs IH]; simpl; [reflexivity|].
  now rewrite IH.
Qed.

Lemma ser_init (h : nat) hd0 σ0 (rs : list slog_Record) :
  handlers σ0 !! h = Some hd0 ->
  mu hd0 = RWMutex_zero ->
  ser_inv h hd0 (arrays σ0) (length (trace σ0))
    (admitted_lines hd0 (arrays σ0) rs) (map (Entry h) rs, σ0).
Proof.
  intros Hh Hmu. destruct (entries_on_handler h rs) as (H1 & H2 & H3).
  split.
  { split; [exact H1|]. exists hd0. simpl. rewrite Hmu, H2. auto. }
  split; [reflexivity|]. split.
  { exists (mu hd0). simpl. rewrite Hh. f_equal. now destruct hd0. }
  split; [reflexivity|].
  exists [], "". simpl. rewrite drop_all, H3, entries_pending. auto.
Qed.

Lemma returned_nothing_left hd0 (arrs0 : arrays_t) gs :
  forallb is_Returned gs = true ->
  flat_map remaining gs = [] /\ flat_map (pending hd0 arrs0) gs = [].
Proof.
  induction gs as [|g gs IH]; simpl; [auto|].
  intros Hall. apply andb_prop in Hall as [Hg Hall].
  destruct (IH Hall) as [-> ->]. destruct g; try discriminate. auto.
Qed.

(** The end of a run on one handler, for any destination whose [Write]
    never fails. *)
Lemma ser_final (h : nat) hd0 σ0 (rs : list slog_Record) (sched : list nat)
    (c : config W) :
  never_fails ->
  handlers σ0 !! h = Some hd0 ->
  mu hd0 = RWMutex_zero ->
  run sched (map (Entry h) rs, σ0) = Some c ->
  forallb is_Returned c.1 = true ->
  exists done,
    done ≡ₚ admitted_lines hd0 (arrays σ0) rs
    /\ written_bytes (drop (length (trace σ0)) (trace c.2)) = join done.
Proof.
  intros Hok Hh Hmu Hrun Hret.
  pose proof (ser_run h hd0 _ _ _ sched _ c Hok (ser_init h hd0 σ0 rs Hh Hmu) Hrun)
    as (_ & _ & _ & _ & done & pre & Hwr & Hpre & Hperm).
  destruct (returned_nothing_left hd0 (arrays σ0) c.1 Hret) as [Hr Hp].
  rewrite Hr, Hp in Hperm. simpl in Hperm. rewrite app_nil_r in Hperm.
  rewrite (Hpre Hr), append_empty_r in Hwr. eauto.
Qed.

(** X17. Goroutines that call [Handle] on one and the same handler, with
    a destination that does not fail: however they are scheduled, once
    all have returned the bytes handed to the destination are the lines
    of the admitted records, each whole, one after the other, in some
    order. *)
Theorem one_handler_writes_whole_lines (h : nat) hd0 σ0
    (rs : list slog_Record) (sched : list nat) (c : config W) :
  never_fails ->
  handlers σ0 !! h = Some hd0 ->
  mu hd0 = RWMutex_zero ->
  run sched (map (Entry h) rs, σ0) = Some c ->
  forallb is_Returned c.1 = true ->
  exists done,
    done ≡ₚ admitted_lines hd0 (arrays σ0) rs
    /\ written_bytes (drop (length (trace σ0)) (trace c.2)) = join done.
Proof. apply ser_final. Qed.

(** X19. Goroutines that call [Handle] on one and the same handler:
    however they are scheduled, at no moment is more than one of them
    between [Lock] and [Unlock]. *)
Theorem one_handler_one_writer (h : nat) hd0 σ0 (rs : list slog_Record)
    (sched : list nat) (c : config W) :
  handlers σ0 !! h = Some hd0 ->
  mu hd0 = RWMutex_zero ->
  run sched (map (Entry h) rs, σ0) = Some c ->
  critical_count c.1 <= 1.
Proof.
  intros Hh Hmu Hrun.
  destruct (entries_on_handler h rs) as (H1 & H2 & _).
  apply (one_handler_mutual_exclusion h hd0 sched (map (Entry h) rs, σ0) c);
    auto.
Qed.
End Serialisation.

Section BufferRuns.
Context `{RT : GoRuntime}.
Import Plain.

Lemma buffer_never_fails : never_fails (W := string).
Proof. intros d p. reflexivity. Qed.

(** With a plain buffer as destination, the buffer holds what it held at
    the start followed by the bytes written since. *)
Lemma buffer_step (h : nat) hd0 (arrs0 : arrays_t) (n0 : nat)
    (L0 : list string) (d0 : string) (i : nat) (c c' : config string) :
  ser_inv h hd0 arrs0 n0 L0 c ->
  dests c.2 !! writer hd0 = Some (d0 +:+ written_bytes (drop n0 (trace c.2))) ->
  sched_step i c = Some c' ->
  dests c'.2 !! writer hd0 = Some (d0 +:+ written_bytes (drop n0 (trace c'.2))).
Proof.
  intros ([Hall _] & _ & (m & Hm) & Hn & _) Hd Hstep.
  destruct c as [gs σ]. cbn [fst snd] in *.
  unfold sched_step in Hstep. cbn [fst snd] in Hstep.
  destruct (gs !! i) as [g|] eqn:Hi; [|discriminate]. simpl in Hstep.
  destruct (gstep g σ) as [[g' σ']|] eqn:Hg; [|discriminate].
  simpl in Hstep. injection Hstep as <-. cbn [fst snd].
  assert (Hon : on_handler h g = true).
  { rewrite forallb_forall in Hall. apply Hall.
    apply list_elem_of_In. eapply list_elem_of_lookup_2; eauto. }
  destruct g as [h' r|h' buf|h' rest|h' err|res]; simpl in Hon, Hg;
    try (apply Nat.eqb_eq in Hon; subst h').
  - rewrite Hm in Hg. simpl in Hg.
    destruct (Level r <? level hd0)%Z; injection Hg as <- <-; exact Hd.
  - destruct (mu_Lock h σ) as [σl|] eqn:Hl; [|discriminate].
    simpl in Hg. injection Hg as <- <-.
    apply call_mu_effect in Hl as (_ & Hd' & Ht').
    rewrite Hd', Ht', drop_snoc_le, written_bytes_snoc by exact Hn.
    simpl. now rewrite append_empty_r.
  - destruct rest as [|ch rest].
    + injection Hg as <- <-. exact Hd.
    + rewrite Hm in Hg. simpl in Hg.
      destruct (call_Write (writer hd0) (String ch "") σ) as [[err σw]|] eqn:Hw;
        [|discriminate].
      apply call_Write_effect in Hw as (d & Hd1 & He & _ & _ & Hd' & Ht').
      subst err. simpl in Hg. injection Hg as <- <-.
      rewrite Hd in Hd1. injection Hd1 as <-.
      rewrite Hd', Ht', drop_snoc_le, written_bytes_snoc by exact Hn.
      rewrite list_lookup_insert_eq by (eapply lookup_lt_Some; eauto).
      simpl. now rewrite append_assoc.
  - destruct (mu_Unlock h σ) as [σu|] eqn:Hu; [|discriminate].
    simpl in Hg. injection Hg as <- <-.
    apply call_mu_effect in Hu as (_ & Hd' & Ht').
    rewrite Hd', Ht', drop_snoc_le, written_bytes_snoc by exact Hn.
    simpl. now rewrite append_empty_r.
  - discriminate.
Qed.

Lemma buffer_run (h : nat) hd0 (arrs0 : arrays_t) (n0 : nat)
    (L0 : list string) (d0 : string) (sched : list nat) (c c' : config string) :
  ser_inv h hd0 arrs0 n0 L0 c ->
  dests c.2 !! writer hd0 = Some (d0 +:+ written_bytes (drop n0 (trace c.2))) ->
  run sched c = Some c' ->
  dests c'.2 !! writer hd0 = Some (d0 +:+ written_bytes (drop n0 (trace c'.2))).
Proof.
  revert c. induction sched as [|i sched IH]; intros c Hc Hd Hrun; simpl in Hrun.
  - now injection Hrun as <-.
  - destruct (sched_step i c) as [c1|] eqn:Hs; [|discriminate].
    simpl in Hrun. eapply (IH c1); [| |exact Hrun].
    + eapply ser_step; eauto. apply buffer_never_fails.
    + eapply buffer_step; eauto.
Qed.

Lemma count_newlines_join (l : list string) :
  Forall (fun s => count_newlines s = 1) l ->
  count_newlines (join l) = length l.
Proof.
  induction 1 as [|s l Hs _ IH]; simpl; [reflexivity|].
  rewrite count_newlines_append, Hs, IH. reflexivity.
Qed.

(** X18. Goroutines calling [Handle] on one handler whose destination is
    a buffer: once all have returned, the buffer holds what it held
    before followed by the lines of the admitted records, each whole, in
    some order; when every line has its one newline, the number of
    newlines added is the number of admitted records. *)
Theorem one_handler_buffer_holds_lines (h : nat) hd0 (σ0 : state string)
    (d0 : string) (rs : list slog_Record) (sched : list nat)
    (c : config string) :
  handlers σ0 !! h = Some hd0 ->
  mu hd0 = RWMutex_zero ->
  dests σ0 !! writer hd0 = Some d0 ->
  run sched (map (Entry h) rs, σ0) = Some c ->
  forallb is_Returned c.1 = true ->
  exists done,
    done ≡ₚ admitted_lines hd0 (arrays σ0) rs
    /\ dests c.2 !! writer hd0 = Some (d0 +:+ join done)
    /\ (Forall (fun s => count_newlines s = 1)
               (admitted_lines hd0 (arrays σ0) rs) ->
        count_newlines (join done)
        = length (admitted_lines hd0 (arrays σ0) rs)).
Proof.
  intros Hh Hmu Hd Hrun Hret.
  destruct (ser_final h hd0 σ0 rs sched c buffer_never_fails Hh Hmu Hrun Hret)
    as (done & Hperm & Hwr).
  exists done. split; [exact Hperm|]. split.
  - rewrite <- Hwr.
    apply (buffer_run h hd0 _ _ _ d0 sched _ c (ser_init h hd0 σ0 rs Hh Hmu));
      [|exact Hrun].
    simpl. rewrite drop_all. simpl. now rewrite append_empty_r.
  - intros Hall. rewrite <- (Permutation_length Hperm).
    apply count_newlines_join. now rewrite Hperm.
Qed.
End BufferRuns.

(** ** The tests' helper *)

Section RemoveTimestamp.
Import Ref.

Lemma match_prefix_app (p1 p2 : list pat) (s1 s2 : string) :
  match_prefix p1 s1 = Some "" ->
  match_prefix (p1 ++ p2) (s1 +:+ s2) = match_prefix p2 s2.
Proof.
  revert s1. induction p1 as [|x p1 IH]; intros s1 H; simpl in *.
  - injection H as ->. reflexivity.
  - destruct s1 as [|c s1]; [discriminate|]. simpl.
    destruct (pat_matches x c); [now apply IH | discriminate].
Qed.

Lemma digits_only_spec (k : nat) (s : string) :
  digits_only k s = true -> match_prefix (replicate k Digit) s = Some "".
Proof.
  unfold digits_only. destruct (match_prefix _ s) as [[|]|]; congruence.
Qed.

Lemma pad_digits (k bound n : nat) :
  forallb (fun n => digits_only k (pad k n)) (seq 0 bound) = true ->
  n < bound -> match_prefix (replicate k Digit) (pad k n) = Some "".
Proof.
  intros Hall Hn. apply digits_only_spec.
  rewrite forallb_forall in Hall. apply Hall. apply in_seq. lia.
Qed.

Lemma pad4_digits (n : nat) :
  n < 10000 -> match_prefix [Digit; Digit; Digit; Digit] (pad 4 n) = Some "".
Proof. apply (pad_digits 4 10000). vm_compute. reflexivity. Qed.

Lemma pad2_digits (n : nat) :
  n < 100 -> match_prefix [Digit; Digit] (pad 2 n) = Some "".
Proof. apply (pad_digits 2 100). vm_compute. reflexivity. Qed.

Lemma Format_default (t : civil) :
  Format t DefaultTimeFormat
  = pad 4 (year t) +:+ "/" +:+ pad 2 (month t) +:+ "/" +:+ pad 2 (day t)
    +:+ " " +:+ pad 2 (hour t) +:+ ":" +:+ pad 2 (minute t) +:+ ":"
    +:+ pad 2 (second t).
Proof.
  unfold Format. simpl. rewrite ?append_empty_r, ?append_assoc. reflexivity.
Qed.

(** X20. [removeTimestamp] takes off a line exactly the time that
    [Handle] writes with the default time format, for years of four digits:
    what is left starts with the level name. *)
Theorem removeTimestamp_strips_default (grp : string) (r : slog_Record)
    (shown : list slog_Attr) :
  year (Time_ r) < 10000 ->
  month (Time_ r) < 100 -> day (Time_ r) < 100 ->
  hour (Time_ r) < 100 -> minute (Time_ r) < 100 -> second (Time_ r) < 100 ->
  removeTimestamp (line_of DefaultTimeFormat grp r shown)
  = ToUpper (Level_String (Level r)) +:+ " "
    +:+ (if String.eqb grp "" then "" else "[" +:+ grp +:+ "] ")
    +:+ Message r +:+ concat_map render_attr shown +:+ newline.
Proof.
  intros Hy Hmo Hd Hh Hmi Hs. unfold removeTimestamp, line_of.
  change (Time_Format (Time_ r) DefaultTimeFormat)
    with (Format (Time_ r) DefaultTimeFormat).
  rewrite Format_default, !append_assoc.
  change timestamp_re
    with ([Digit; Digit; Digit; Digit] ++ [Byte "/"] ++ [Digit; Digit]
          ++ [Byte "/"] ++ [Digit; Digit] ++ [Byte " "] ++ [Digit; Digit]
          ++ [Byte ":"] ++ [Digit; Digit] ++ [Byte ":"] ++ [Digit; Digit]
          ++ [Byte " "]).
  rewrite (match_prefix_app _ _ _ _ (pad4_digits _ Hy)).
  rewrite (match_prefix_app [Byte "/"] _ "/" _ eq_refl).
  rewrite (match_prefix_app _ _ _ _ (pad2_digits _ Hmo)).
  rewrite (match_prefix_app [Byte "/"] _ "/" _ eq_refl).
  rewrite (match_prefix_app _ _ _ _ (pad2_digits _ Hd)).
  rewrite (match_prefix_app [Byte " "] _ " " _ eq_refl).
  rewrite (match_prefix_app _ _ _ _ (pad2_digits _ Hh)).
  rewrite (match_prefix_app [Byte ":"] _ ":" _ eq_refl).
  rewrite (match_prefix_app _ _ _ _ (pad2_digits _ Hmi)).
  rewrite (match_prefix_app [Byte ":"] _ ":" _ eq_refl).
  rewrite (match_prefix_app _ _ _ _ (pad2_digits _ Hs)).
  reflexivity.
Qed.
End RemoveTimestamp.

(** ** Instances of the further properties *)

Section FurtherInstances.
Import Ref Scenario Cases Plain.

Lemma WithAttrs_derives_witness :
  exists c σ' hdc,
    WithAttrs root [attr "env" "production"] w1 = Some (c, σ')
    /\ handlers w1 !! c = None
    /\ handlers σ' !! c = Some hdc
    /\ level hdc = level root_hd /\ writer hdc = writer root_hd
    /\ group hdc = group root_hd /\ timeFormat hdc = timeFormat root_hd
    /\ chain σ' c
       = Some (elems (arrays w1) (attrs root_hd) ++ [attr "env" "production"])
    /\ handlers σ' !! root = Some root_hd
    /\ chain σ' root = chain w1 root
    /\ dests σ' = dests w1 /\ trace σ' = trace w1.
Proof.
  apply (WithAttrs_derives w1 root root_hd [attr "env" "production"]).
  - reflexivity.
  - reflexivity.
Defined.

Lemma WithAttrs_twice_witness :
  exists c1 σ1 c2 σ2 c σd,
    WithAttrs root [attr "a" "1"] w1 = Some (c1, σ1)
    /\ WithAttrs c1 [attr "b" "2"; attr "c" "3"] σ1 = Some (c2, σ2)
    /\ WithAttrs root ([attr "a" "1"] ++ [attr "b" "2"; attr "c" "3"]) w1
       = Some (c, σd)
    /\ chain σ2 c2
       = Some (elems (arrays w1) (attrs root_hd) ++ [attr "a" "1"]
               ++ [attr "b" "2"; attr "c" "3"])
    /\ chain σd c = chain σ2 c2.
Proof.
  apply (WithAttrs_twice w1 root root_hd [attr "a" "1"]
           [attr "b" "2"; attr "c" "3"]).
  - reflexivity.
  - reflexivity.
Defined.

Lemma WithGroup_replaces_group_witness :
  exists c σ' res σ'',
    WithGroup root "TestGroup" w1 = Some (c, σ')
    /\ handlers σ' !! root = Some root_hd
    /\ Handle c Background r_test σ' = Some (res, σ'')
    /\ trace σ''
       = trace w1
         ++ [EvLock c;
             EvWrite (writer root_hd)
               (line_of (timeFormat root_hd) "TestGroup" r_test
                  (shown_attrs w1 root_hd r_test));
             EvUnlock c].
Proof.
  apply (WithGroup_replaces_group w1 root root_hd "TestGroup" Background r_test).
  - reflexivity.
  - reflexivity.
  - vm_compute. discriminate.
Defined.

Lemma WithGroup_last_wins_witness :
  exists c1 σ1 c2 σ2 res σ3,
    WithGroup root "outer" w1 = Some (c1, σ1)
    /\ WithGroup c1 "inner" σ1 = Some (c2, σ2)
    /\ Handle c2 Background r_test σ2 = Some (res, σ3)
    /\ trace σ3
       = trace w1
         ++ [EvLock c2;
             EvWrite (writer root_hd)
               (line_of (timeFormat root_hd) "inner" r_test
                  (shown_attrs w1 root_hd r_test));
             EvUnlock c2].
Proof.
  apply (WithGroup_last_wins w1 root root_hd "outer" "inner" Background r_test).
  - reflexivity.
  - reflexivity.
  - vm_compute. discriminate.
Defined.

Lemma Handle_then_Handle_witness :
  exists res1 σ1 res2 σ2,
    Handle 0 Background r_test w_failing = Some (res1, σ1)
    /\ Handle 0 Background r_error σ1 = Some (res2, σ2)
    /\ handlers σ2 = handlers w_failing /\ arrays σ2 = arrays w_failing
    /\ trace σ2
       = trace w_failing
         ++ [EvLock 0;
             EvWrite (writer root_hd)
               (line_of (timeFormat root_hd) (group root_hd) r_test
                  (shown_attrs w_failing root_hd r_test));
             EvUnlock 0;
             EvLock 0;
             EvWrite (writer root_hd)
               (line_of (timeFormat root_hd) (group root_hd) r_error
                  (shown_attrs w_failing root_hd r_error));
             EvUnlock 0].
Proof.
  apply (Handle_then_Handle w_failing 0 root_hd 0 root_hd Background Background
           r_test r_error).
  - reflexivity.
  - reflexivity.
  - reflexivity.
  - vm_compute. discriminate.
  - vm_compute. discriminate.
Defined.

Lemma Handle_agrees_with_Enabled_witness :
  exists b σe res σ',
    Enabled root Background (Level r_debug) w1 = Some (b, σe)
    /\ Handle root Background r_debug w1 = Some (res, σ')
    /\ (b = false -> res = None /\ σ' = w1)
    /\ (b = true ->
        trace σ'
        = trace w1
          ++ [EvLock root;
              EvWrite (writer root_hd)
                (line_of (timeFormat root_hd) (group root_hd) r_debug
                   (shown_attrs w1 root_hd r_debug));
              EvUnlock root]).
Proof.
  apply (Handle_agrees_with_Enabled w1 root root_hd Background r_debug).
  - reflexivity.
  - reflexivity.
Defined.

Lemma held_mutex_blocks_witness :
  Enabled root Background LevelError w_held = None
  /\ Handle root Background r_test w_held = None.
Proof.
  apply (held_mutex_blocks w_held root
           (mkHandler LevelInfo 0 nil_slice "" DefaultTimeFormat
              (mkRWMutex true 0))
           Background r_test LevelError).
  - reflexivity.
  - reflexivity.
  - vm_compute. discriminate.
Defined.

Lemma WithAttrs_copies_held_mutex_witness :
  exists c σ' σ2 hd2 hdc,
    WithAttrs root [attr "env" "production"] w_held = Some (c, σ')
    /\ mu_Unlock root σ' = Some σ2
    /\ handlers σ2 !! root = Some hd2 /\ w (mu hd2) = false
    /\ handlers σ2 !! c = Some hdc /\ w (mu hdc) = true
    /\ Enabled c Background LevelError σ2 = None
    /\ Handle c Background r_test σ2 = None.
Proof.
  apply (WithAttrs_copies_held_mutex w_held root
           (mkHandler LevelInfo 0 nil_slice "" DefaultTimeFormat
              (mkRWMutex true 0))
           [attr "env" "production"] Background r_test LevelError).
  - reflexivity.
  - reflexivity.
  - vm_compute. discriminate.
Defined.

Lemma WithAttrs_empty_keys_not_shown_witness :
  exists c σ' res σ'',
    WithAttrs root [attr "" "v"; attr "" "w"] w1 = Some (c, σ')
    /\ chain σ' c
       = Some (elems (arrays w1) (attrs root_hd) ++ [attr "" "v"; attr "" "w"])
    /\ Handle c Background r_test σ' = Some (res, σ'')
    /\ trace σ''
       = trace w1
         ++ [EvLock c;
             EvWrite (writer root_hd)
               (line_of (timeFormat root_hd) (group root_hd) r_test
                  (shown_attrs w1 root_hd r_test));
             EvUnlock c].
Proof.
  apply (WithAttrs_empty_keys_not_shown w1 root root_hd
           [attr "" "v"; attr "" "w"] Background r_test).
  - reflexivity.
  - reflexivity.
  - vm_compute. discriminate.
  - repeat constructor.
Defined.

Lemma WithAttrs_spare_capacity_shared_witness :
  chain w3x 4 = Some (elems (arrays w3) (attrs h3_hd) ++ [attr "x" "4"])
  /\ chain w3xy 4 = Some (elems (arrays w3) (attrs h3_hd) ++ [attr "y" "5"])
  /\ chain w3xy 5 = Some (elems (arrays w3) (attrs h3_hd) ++ [attr "y" "5"])
  /\ chain w3xy h3 = chain w3 h3.
Proof.
  apply (WithAttrs_spare_capacity_shared w3 h3 h3_hd (attr "x" "4")
           (attr "y" "5") 4 w3x 5 w3xy).
  - reflexivity.
  - reflexivity.
  - simpl. lia.
  - reflexivity.
  - reflexivity.
Defined.

Lemma WithAttrs_full_slice_independent_witness :
  chain w1x 1 = Some (elems (arrays w1) (attrs root_hd) ++ [attr "x" "4"])
  /\ chain w1xy 1 = Some (elems (arrays w1) (attrs root_hd) ++ [attr "x" "4"])
  /\ chain w1xy 2 = Some (elems (arrays w1) (attrs root_hd) ++ [attr "y" "5"]).
Proof.
  apply (WithAttrs_full_slice_independent w1 root root_hd [attr "x" "4"]
           [attr "y" "5"] 1 w1x 2 w1xy).
  - reflexivity.
  - reflexivity.
  - reflexivity.
  - discriminate.
  - reflexivity.
  - reflexivity.
Defined.


Lemma Legacy_Handle_spec_witness :
  let out := spec_line "2006/01/02 15:04:05" (Legacy.group lroot_hd) r_nokey
               (elems (arrays lw1) (Legacy.attrs lroot_hd)) in
  Legacy.Handle lroot Background r_nokey lw1
  = if (Level r_nokey <? Legacy.level lroot_hd)%Z then Some (None, lw1)
    else Some (wrap_write_error (Writer_Write (Buffer "") out).2.2,
               mkWorld (arrays lw1) (handlers lw1)
                 (<[Legacy.writer lroot_hd := (Writer_Write (Buffer "") out).1]>
                    (dests lw1))
                 (trace lw1 ++ [EvLock lroot; EvWrite (Legacy.writer lroot_hd) out;
                                EvUnlock lroot])).
Proof.
  apply (Legacy_Handle_spec lw1 lroot lroot_hd (Buffer "") Background r_nokey).
  - reflexivity.
  - reflexivity.
  - reflexivity.
Defined.

Lemma Handle_buf_agrees_with_Legacy_witness :
  Handle_buf root_hd [attr "env" "production"] r_error
  = Legacy.Handle_buf lroot_hd [attr "env" "production"] r_error.
Proof.
  apply (Handle_buf_agrees_with_Legacy root_hd lroot_hd
           [attr "env" "production"] r_error).
  - reflexivity.
  - reflexivity.
  - repeat constructor; discriminate.
  - repeat constructor; discriminate.
Defined.

Lemma Legacy_WithAttrs_fresh_mutex_witness :
  let hd := Legacy.mkHandler LevelInfo 0 (mkSlice (Some 0) 0 0) ""
              (mkMutex true) in
  exists c σ' hdc res σ'',
    Legacy.WithAttrs lroot [attr "env" "production"] lw_held = Some (c, σ')
    /\ handlers σ' !! lroot = Some hd
    /\ handlers σ' !! c = Some hdc
    /\ Legacy.mu hdc = Mutex_zero
    /\ elems (arrays σ') (Legacy.attrs hdc)
       = elems (arrays lw_held) (Legacy.attrs hd) ++ [attr "env" "production"]
    /\ Legacy.Handle c Background r_test σ' = Some (res, σ'')
    /\ trace σ''
       = trace lw_held
         ++ [EvLock c;
             EvWrite (Legacy.writer hd)
               (spec_line "2006/01/02 15:04:05" (Legacy.group hd) r_test
                  (elems (arrays lw_held) (Legacy.attrs hd)
                   ++ [attr "env" "production"]));
             EvUnlock c].
Proof.
  apply (Legacy_WithAttrs_fresh_mutex lw_held lroot
           (Legacy.mkHandler LevelInfo 0 (mkSlice (Some 0) 0 0) "" (mkMutex true))
           (Buffer "") [attr "env" "production"] Background r_test).
  - reflexivity.
  - reflexivity.
  - reflexivity.
  - vm_compute. discriminate.
Defined.

Lemma Legacy_Enabled_never_waits_witness :
  let hd := Legacy.mkHandler LevelInfo 0 (mkSlice (Some 0) 0 0) ""
              (mkMutex true) in
  (exists b, Legacy.Enabled lroot Background LevelError lw_held = Some (b, lw_held)
             /\ (b = true <-> (LevelError >= Legacy.level hd)%Z))
  /\ Legacy.Handle lroot Background r_test lw_held = None.
Proof.
  apply (Legacy_Enabled_never_waits lw_held lroot
           (Legacy.mkHandler LevelInfo 0 (mkSlice (Some 0) 0 0) "" (mkMutex true))
           Background r_test LevelError).
  - reflexivity.
  - reflexivity.
  - vm_compute. discriminate.
Defined.

Lemma one_handler_writes_whole_lines_witness :
  exists done,
    done ≡ₚ admitted_lines root_hd (arrays pw1) three_records
    /\ written_bytes (drop (length (trace pw1)) (trace c_end.2)) = join done.
Proof.
  apply (one_handler_writes_whole_lines 0 root_hd pw1 three_records
           third_first c_end).
  - exact buffer_never_fails.
  - reflexivity.
  - reflexivity.
  - vm_compute. reflexivity.
  - vm_compute. reflexivity.
Defined.

Lemma one_handler_buffer_holds_lines_witness :
  exists done,
    done ≡ₚ admitted_lines root_hd (arrays pw1) three_records
    /\ dests c_end.2 !! writer root_hd = Some ("" +:+ join done)
    /\ (Forall (fun s => count_newlines s = 1)
               (admitted_lines root_hd (arrays pw1) three_records) ->
        count_newlines (join done)
        = length (admitted_lines root_hd (arrays pw1) three_records)).
Proof.
  apply (one_handler_buffer_holds_lines 0 root_hd pw1 "" three_records
           third_first c_end).
  - reflexivity.
  - reflexivity.
  - reflexivity.
  - vm_compute. reflexivity.
  - vm_compute. reflexivity.
Defined.

Lemma one_handler_one_writer_witness : critical_count c_mid.1 <= 1.
Proof.
  apply (one_handler_one_writer 0 root_hd pw1 three_records
           ([0; 1; 2] ++ replicate 5 2) c_mid).
  - reflexivity.
  - reflexivity.
  - vm_compute. reflexivity.
Defined.

Lemma removeTimestamp_strips_default_witness :
  removeTimestamp (line_of DefaultTimeFormat "TestGroup" r_test [])
  = ToUpper (Level_String (Level r_test)) +:+ " "
    +:+ (if String.eqb "TestGroup" "" then "" else "[" +:+ "TestGroup" +:+ "] ")
    +:+ Message r_test +:+ concat_map render_attr [] +:+ newline.
Proof.
  apply (removeTimestamp_strips_default "TestGroup" r_test []);
    apply Nat.ltb_lt; vm_compute; reflexivity.
Defined.

(** The tests' use of the helper: the grouped line without its time. *)
Example removeTimestamp_grouped :
  removeTimestamp (line_of DefaultTimeFormat "TestGroup" r_test [])
  = "INFO [TestGroup] Test message" +:+ newline
  /\ removeTimestamp "" = ""
  /\ removeTimestamp "INFO no time" = "INFO no time".
Proof. repeat split; vm_compute; reflexivity. Qed.
End FurtherInstances.

(** ** A mutex that stays held *)

Section LeakedMutex.
Import Ref Scenario Leak.


End LeakedMutex.
